(** * Billing-cycle pattern detection and projection (malabar)

    A shallow embedding of [src/lib/utils/billing-cycle-detector.ts]
    (the third document of [src/types/index.ts]) together with the part of
    the JavaScript [Date] object and of the [date-fns] functions it calls.

    Modelling conventions.
    - A [Date] is its time value: integer milliseconds since the epoch.
      Invalid dates (NaN time values) are not modelled.
    - The local time zone is UTC, so a local day always lasts [msPerDay]
      milliseconds and local fields are read off the time value directly.
    - A JavaScript [number] that the code only ever fills with integers
      (day counts, days of the month, loop counters) is a [Z]; a [number]
      that may be fractional (confidences, medians, variances and the
      [typicalCycleLength] obtained from a median) is an exact rational
      [Q].  The rounding of IEEE-754 doubles is not modelled. *)

From Stdlib Require Import ZArith QArith Qround List Bool Lia Lqa.
From Stdlib Require String.
From Stdlib Require Import Sorting.Permutation Sorting.Sorted.
Import ListNotations.
Local Open Scope Z_scope.

(** ** The proleptic Gregorian calendar on day numbers

    Day number 0 is 1970-01-01.  Months are numbered 1..12 here; the
    0-based month of JavaScript is introduced with [MonthFromTime]. *)

Module Civil.

Definition is_leap (y : Z) : bool :=
  (y mod 4 =? 0) && (negb (y mod 100 =? 0) || (y mod 400 =? 0)).

Definition days_in_month (y m : Z) : Z :=
  if m =? 2 then (if is_leap y then 29 else 28)
  else if (m =? 4) || (m =? 6) || (m =? 9) || (m =? 11) then 30
  else 31.

(** Day of the 400-year era from year of era, month and day. *)
Definition doe_of (yoe m d : Z) : Z :=
  let mp := if 2 <? m then m - 3 else m + 9 in
  let doy := (153 * mp + 2) / 5 + d - 1 in
  yoe * 365 + yoe / 4 - yoe / 100 + doy.

(** Days from 1 March of year 0 to 1 March of year [y]; [days_from_civil]
    is this count for the year that starts in March, plus the day of that
    year, shifted to the epoch. *)
Definition days_to_march (y : Z) : Z :=
  let era := y / 400 in
  let yoe := y - era * 400 in
  era * 146097 + (yoe * 365 + yoe / 4 - yoe / 100).

Definition days_from_civil (y m d : Z) : Z :=
  let y' := if m <=? 2 then y - 1 else y in
  let era := y' / 400 in
  let yoe := y' - era * 400 in
  era * 146097 + doe_of yoe m d - 719468.

(** Year of era, month and day from the day of the era. *)
Definition of_doe (doe : Z) : Z * Z * Z :=
  let yoe := (doe - doe / 1460 + doe / 36524 - doe / 146096) / 365 in
  let doy := doe - (365 * yoe + yoe / 4 - yoe / 100) in
  let mp := (5 * doy + 2) / 153 in
  let d := doy - (153 * mp + 2) / 5 + 1 in
  let m := if mp <? 10 then mp + 3 else mp - 9 in
  (yoe, m, d).

Definition civil_from_days (z : Z) : Z * Z * Z :=
  let z' := z + 719468 in
  let era := z' / 146097 in
  let doe := z' - era * 146097 in
  let '(yoe, m, d) := of_doe doe in
  (yoe + era * 400 + (if m <=? 2 then 1 else 0), m, d).

End Civil.

(** ** The JavaScript [Date] object (ECMAScript, "Date Objects")

    Time values, the abstract operations [Day], [TimeWithinDay], [MakeDay],
    [MakeDate], [MakeTime], and the methods the program and date-fns call.
    Local time is UTC. *)

Module JSDate.

(** A [Date] is its time value. *)
Abbreviation Date := Z (only parsing).

Definition msPerDay : Z := 86400000.

Definition Day (t : Z) : Z := t / msPerDay.
Definition TimeWithinDay (t : Z) : Z := t mod msPerDay.

Definition YearFromTime (t : Z) : Z :=
  let '(y, _, _) := Civil.civil_from_days (Day t) in y.

(** 0-based month, as in JavaScript. *)
Definition MonthFromTime (t : Z) : Z :=
  let '(_, m, _) := Civil.civil_from_days (Day t) in m - 1.

Definition DateFromTime (t : Z) : Z :=
  let '(_, _, d) := Civil.civil_from_days (Day t) in d.

Definition MakeTime (hour min sec ms : Z) : Z :=
  hour * 3600000 + min * 60000 + sec * 1000 + ms.

(** [MakeDay year month date]: the month may lie outside 0..11 and the date
    outside the month; both carry over. *)
Definition MakeDay (year month date : Z) : Z :=
  let ym := year + month / 12 in
  let mn := month mod 12 in
  Civil.days_from_civil ym (mn + 1) 1 + date - 1.

Definition MakeDate (day time : Z) : Z := day * msPerDay + time.

(** Truncation toward zero of a number argument. *)
Definition ToIntegerOrInfinity (q : Q) : Z := Z.quot (Qnum q) (Zpos (Qden q)).

Definition getTime (t : Date) : Z := t.
Definition getFullYear (t : Date) : Z := YearFromTime t.
Definition getMonth (t : Date) : Z := MonthFromTime t.
Definition getDate (t : Date) : Z := DateFromTime t.

(** [Date.prototype.setDate(date)]; the argument is a number and is
    truncated by [MakeDay]. *)
Definition setDate (t : Date) (dt : Q) : Date :=
  MakeDate (MakeDay (YearFromTime t) (MonthFromTime t) (ToIntegerOrInfinity dt))
           (TimeWithinDay t).

(** [Date.prototype.setMonth(month, date)]. *)
Definition setMonth (t : Date) (month date : Z) : Date :=
  MakeDate (MakeDay (YearFromTime t) month date) (TimeWithinDay t).

(** [Date.prototype.setFullYear(year, month, date)]. *)
Definition setFullYear (t : Date) (year month date : Z) : Date :=
  MakeDate (MakeDay year month date) (TimeWithinDay t).

(** [Date.prototype.setHours(hour, min, sec, ms)]. *)
Definition setHours (t : Date) (hour min sec ms : Z) : Date :=
  MakeDate (Day t) (MakeTime hour min sec ms).

(** The time value of midnight (UTC) of a calendar date, month 1..12. *)
Definition ymd (y m d : Z) : Date := MakeDate (MakeDay y (m - 1) d) 0.

End JSDate.

(** ** The date-fns functions imported by the detector

    [import { differenceInDays, addDays, addMonths, setDate, endOfMonth,
    startOfDay } from 'date-fns']; each follows the library's own body
    (date-fns 3 and 4).  date-fns 2 truncates the amount of [addDays]
    before adding it, which gives the same date for every whole and every
    non-negative amount, the only ones the properties below rely on. *)

Module DateFns.
Import JSDate.

(** [if (!amount) return _date; _date.setDate(_date.getDate() + amount)]. *)
Definition addDays (date : Date) (amount : Q) : Date :=
  if Qeq_bool amount 0 then date
  else JSDate.setDate date (inject_Z (getDate date) + amount)%Q.

(** The day of the month is kept unless the desired month is shorter, in
    which case the last day of the desired month is returned. *)
Definition addMonths (date : Date) (amount : Z) : Date :=
  if amount =? 0 then date
  else
    let dayOfMonth := getDate date in
    let endOfDesiredMonth := setMonth date (getMonth date + amount + 1) 0 in
    let daysInMonth := getDate endOfDesiredMonth in
    if daysInMonth <=? dayOfMonth then endOfDesiredMonth
    else setFullYear date (getFullYear endOfDesiredMonth)
                     (getMonth endOfDesiredMonth) dayOfMonth.

Definition setDate (date : Date) (dayOfMonth : Z) : Date :=
  JSDate.setDate date (inject_Z dayOfMonth).

Definition endOfMonth (date : Date) : Date :=
  let month := getMonth date in
  setHours (setFullYear date (getFullYear date) (month + 1) 0) 23 59 59 999.

Definition startOfDay (date : Date) : Date := setHours date 0 0 0 0.

(** Sign of the difference of two dates compared field by field in local
    time; in UTC this is the sign of the difference of the time values. *)
Definition compareLocalAsc (dateLeft dateRight : Date) : Z :=
  Z.sgn (dateLeft - dateRight).

Definition differenceInCalendarDays (dateLeft dateRight : Date) : Z :=
  Day dateLeft - Day dateRight.

(** Number of full days between two dates, truncated toward zero. *)
Definition differenceInDays (dateLeft dateRight : Date) : Z :=
  let sign := compareLocalAsc dateLeft dateRight in
  let difference := Z.abs (differenceInCalendarDays dateLeft dateRight) in
  let dateLeft' :=
    JSDate.setDate dateLeft (inject_Z (getDate dateLeft - sign * difference)) in
  let isLastDayNotFull :=
    if compareLocalAsc dateLeft' dateRight =? - sign then 1 else 0 in
  sign * (difference - isLastDayNotFull).

End DateFns.

(** ** Sorting

    [Array.prototype.sort] with a numeric comparator, modelled by a stable
    insertion sort on an integer key. *)

Fixpoint insert_by {A : Type} (key : A -> Z) (x : A) (l : list A) : list A :=
  match l with
  | [] => [x]
  | y :: l' => if key x <=? key y then x :: l else y :: insert_by key x l'
  end.

Fixpoint sort_by {A : Type} (key : A -> Z) (l : list A) : list A :=
  match l with
  | [] => []
  | x :: l' => insert_by key x (sort_by key l')
  end.

(** ** A plain object used as a table keyed by numbers

    Properties are kept in creation order.  [entries] is the order of
    [Object.entries] (OrdinaryOwnPropertyKeys): the keys that are array
    indices, i.e. the integers from 0 to 2^32 - 2, in ascending numeric
    order, followed by all other keys in creation order. *)

Module JSObject.

Definition t := list (Z * Z).

Fixpoint get (o : t) (k : Z) : option Z :=
  match o with
  | [] => None
  | (k', v) :: o' => if k =? k' then Some v else get o' k
  end.

Fixpoint set (o : t) (k v : Z) : t :=
  match o with
  | [] => [(k, v)]
  | (k', v') :: o' => if k =? k' then (k, v) :: o' else (k', v') :: set o' k v
  end.

Definition is_array_index (k : Z) : bool := (0 <=? k) && (k <? 4294967295).

Definition entries (o : t) : list (Z * Z) :=
  sort_by fst (filter (fun e => is_array_index (fst e)) o)
  ++ filter (fun e => negb (is_array_index (fst e))) o.

End JSObject.

(** ** [Math] functions *)

Definition Qltb (x y : Q) : bool := negb (Qle_bool y x).

Definition Math_min (x y : Q) : Q := if Qle_bool x y then x else y.
Definition Math_max (x y : Q) : Q := if Qle_bool x y then y else x.

(** [Math.max(...xs)] and [Math.min(...xs)] on a list of integers; [None]
    stands for the infinity returned when there is no argument. *)
Definition Math_max_of (xs : list Z) : option Z :=
  match xs with
  | [] => None
  | x :: xs' => Some (fold_left Z.max xs' x)
  end.

Definition Math_min_of (xs : list Z) : option Z :=
  match xs with
  | [] => None
  | x :: xs' => Some (fold_left Z.min xs' x)
  end.

(** [Math.round]: the nearest integer, halves rounded up. *)
Definition Math_round (x : Q) : Z := Qfloor (x + (1 # 2)).

(** ** The detector: data *)

Import JSDate DateFns.

Record HistoricalCycle := {
  statementDate : Date;
  dueDate : Date;
  statementBalance : option Q
}.

Record BillingCyclePattern := {
  typicalCycleLength : Q;
  statementDayOfMonth : option Z;
  dueDateOffset : Z;
  confidence : Q
}.

(** The field [confidence] of the source interface is [projConfidence]
    here, the name being taken by [BillingCyclePattern]. *)
Record BillingCycleProjection := {
  cycleStartDate : Date;
  cycleEndDate : Date;
  paymentDueDate : Date;
  isProjected : bool;
  projConfidence : Q
}.

Inductive Quality := high | medium | low.

(** The insight messages, with the values interpolated into them. *)
Inductive Insight :=
| InsufficientData
    (* 'Insufficient historical data. Need at least 2 billing cycles.' *)
| ConsistentCycle (typical : Q)
    (* `Consistent billing cycle of ${typicalCycleLength} days` *)
| VariableCycle (lo hi : option Z)
    (* `Variable billing cycle (${min}-${max} days)` *)
| ClosesOnDay (day : Z)
    (* `Statements typically close on day ${mostCommonDay} of the month` *)
| DatesVary
    (* 'Statement dates vary by month' *)
| DueAfter (offset : Z)
    (* `Payment typically due ${dueDateOffset} days after statement` *)
| OffsetVaries.
    (* 'Due date offset varies between cycles' *)

Record PatternAnalysisResult := {
  pattern : BillingCyclePattern;
  quality : Quality;
  insights : list Insight
}.

Inductive DataSource := plaid | inferred | manual.

(** ** The detector: statistical utilities *)

(** [frequency[num] = (frequency[num] || 0) + 1] *)
Definition count_number (frequency : JSObject.t) (num : Z) : JSObject.t :=
  JSObject.set frequency num
    (match JSObject.get frequency num with
     | Some v => v
     | None => 0
     end + 1).

(** The callback of the second [forEach], on the pair [(maxFreq, mode)]. *)
Definition pick_mode (acc : Z * option Z) (entry : Z * Z) : Z * option Z :=
  let '(maxFreq, mode) := acc in
  let '(num, freq) := entry in
  if maxFreq <? freq then (freq, Some num) else (maxFreq, mode).

Definition calculateMode (numbers : list Z) : option Z :=
  match numbers with
  | [] => None
  | _ =>
    let frequency := fold_left count_number numbers [] in
    snd (fold_left pick_mode (JSObject.entries frequency) (0, None))
  end.

Definition calculateMedian (numbers : list Z) : Q :=
  match numbers with
  | [] => 0
  | _ =>
    let sorted := sort_by (fun a => a) numbers in
    let mid := Nat.div (length sorted) 2 in
    if Nat.eqb (Nat.modulo (length sorted) 2) 0
    then (inject_Z (nth (mid - 1)%nat sorted 0%Z + nth mid sorted 0%Z) / 2)%Q
    else inject_Z (nth mid sorted 0)
  end.

Definition sumQ (xs : list Q) : Q := fold_left Qplus xs 0%Q.

Definition calculateVariance (numbers : list Z) : Q :=
  match numbers with
  | [] => 0
  | _ =>
    let n := inject_Z (Z.of_nat (length numbers)) in
    let mean := (sumQ (map inject_Z numbers) / n)%Q in
    let squaredDiffs := map (fun num => ((inject_Z num - mean) ^ 2)%Q) numbers in
    (sumQ squaredDiffs / n)%Q
  end.

(** ** The detector: month-end handling and day consistency *)

Definition adjustForMonthEnd (date : Date) (targetDay : Z) : Date :=
  let lastDayOfMonth := getDate (endOfMonth date) in
  if lastDayOfMonth <? targetDay
  then DateFns.setDate date lastDayOfMonth
  else DateFns.setDate date targetDay.

Definition checkStatementDayConsistency (cycles : list HistoricalCycle) : bool :=
  let days := map (fun c => getDate (statementDate c)) cycles in
  if Nat.eqb (length (nodup Z.eq_dec days)) 1 then true
  else
    match Math_max_of days, Math_min_of days with
    | Some maxDay, Some minDay =>
        (maxDay - minDay <=? 3) && (28 <=? maxDay)
    | _, _ => false
    end.

(** ** The detector: pattern analysis *)

(** Days between consecutive statements of the sorted history. *)
Fixpoint cycleLengthsOf (sortedCycles : list HistoricalCycle) : list Z :=
  match sortedCycles with
  | [] => []
  | prev :: rest =>
    match rest with
    | [] => []
    | cur :: _ =>
      differenceInDays (statementDate cur) (statementDate prev)
      :: cycleLengthsOf rest
    end
  end.

Definition defaultPattern : BillingCyclePattern :=
  {| typicalCycleLength := 30;
     statementDayOfMonth := None;
     dueDateOffset := 21;
     confidence := 0.3 |}.

Definition analyzeBillingCyclePattern
    (historicalCycles : list HistoricalCycle) : PatternAnalysisResult :=
  if (length historicalCycles <? 2)%nat then
    {| pattern := defaultPattern;
       quality := low;
       insights := [InsufficientData] |}
  else
    let sortedCycles := sort_by statementDate historicalCycles in
    let cycleLengths := cycleLengthsOf sortedCycles in
    (* calculateMode(cycleLengths) || calculateMedian(cycleLengths) *)
    let typicalCycleLength :=
      match calculateMode cycleLengths with
      | Some m => if m =? 0 then calculateMedian cycleLengths else inject_Z m
      | None => calculateMedian cycleLengths
      end in
    let cycleLengthVariance := calculateVariance cycleLengths in
    let isConsistentLength := Qltb cycleLengthVariance 4 in
    let insights :=
      if isConsistentLength then [ConsistentCycle typicalCycleLength]
      else [VariableCycle (Math_min_of cycleLengths) (Math_max_of cycleLengths)] in
    let statementDays := map (fun c => getDate (statementDate c)) sortedCycles in
    let mostCommonDay := calculateMode statementDays in
    let isConsistentDay := checkStatementDayConsistency sortedCycles in
    let statementDayOfMonth := if isConsistentDay then mostCommonDay else None in
    let insights :=
      insights ++
      match mostCommonDay with
      | Some day =>
          if isConsistentDay && negb (day =? 0) then [ClosesOnDay day]
          else [DatesVary]
      | None => [DatesVary]
      end in
    let dueDateOffsets :=
      map (fun cycle => differenceInDays (dueDate cycle) (statementDate cycle))
          sortedCycles in
    let dueDateOffset := Math_round (calculateMedian dueDateOffsets) in
    let isConsistentOffset := Qltb (calculateVariance dueDateOffsets) 4 in
    let insights :=
      insights ++
      (if isConsistentOffset then [DueAfter dueDateOffset] else [OffsetVaries]) in
    let confidence := 0.5%Q in
    let confidence :=
      if (6 <=? length historicalCycles)%nat then (confidence + 0.2)%Q
      else if (3 <=? length historicalCycles)%nat then (confidence + 0.1)%Q
      else confidence in
    let confidence :=
      if isConsistentLength then (confidence + 0.15)%Q else confidence in
    let confidence :=
      if isConsistentDay then (confidence + 0.1)%Q else confidence in
    let confidence :=
      if isConsistentOffset then (confidence + 0.05)%Q else confidence in
    let confidence := Math_min confidence 1.0 in
    let quality :=
      if Qle_bool 0.8 confidence && (6 <=? length historicalCycles)%nat then high
      else if Qle_bool 0.6 confidence && (3 <=? length historicalCycles)%nat
           then medium
      else low in
    {| pattern :=
         {| typicalCycleLength := typicalCycleLength;
            statementDayOfMonth := statementDayOfMonth;
            dueDateOffset := dueDateOffset;
            confidence := confidence |};
       quality := quality;
       insights := insights |}.

(** ** The detector: projection *)

(** The next statement date computed at the head of the loop body. *)
Definition nextStatementDateOf
    (pattern : BillingCyclePattern) (currentStatementDate : Date) : Date :=
  match statementDayOfMonth pattern with
  | Some day => adjustForMonthEnd (addMonths currentStatementDate 1) day
  | None => addDays currentStatementDate (typicalCycleLength pattern)
  end.

(** The [for] loop of [projectFutureCycles], from counter [i] and the
    current statement date.  [fuel] bounds the number of iterations; the
    loop itself stops on [i < monthsAhead]. *)
Fixpoint projectLoop (pattern : BillingCyclePattern) (monthsAhead : Z)
    (fuel : nat) (i : Z) (currentStatementDate : Date)
    : list BillingCycleProjection :=
  match fuel with
  | O => []
  | S fuel' =>
    if i <? monthsAhead then
      let nextStatementDate := nextStatementDateOf pattern currentStatementDate in
      let cycleStartDate := addDays currentStatementDate 1 in
      let paymentDueDate :=
        addDays nextStatementDate (inject_Z (dueDateOffset pattern)) in
      {| cycleStartDate := startOfDay cycleStartDate;
         cycleEndDate := startOfDay nextStatementDate;
         paymentDueDate := startOfDay paymentDueDate;
         isProjected := true;
         projConfidence :=
           (confidence pattern * (1 - inject_Z i * 0.05))%Q |}
      :: projectLoop pattern monthsAhead fuel' (i + 1) nextStatementDate
    else []
  end.

(** The default [monthsAhead = 6] of the source is left to the caller. *)
Definition projectFutureCycles (lastKnownCycle : HistoricalCycle)
    (pattern : BillingCyclePattern) (monthsAhead : Z)
    : list BillingCycleProjection :=
  projectLoop pattern monthsAhead (Z.to_nat monthsAhead) 0
              (statementDate lastKnownCycle).

(** A call either returns a value or throws.  The body of
    [projectFutureCycles] has no [throw] and no argument check, and the
    date-fns functions it calls do not throw, so every call returns. *)
Inductive Completion (A : Type) :=
| Returned (value : A)
| Thrown (error : unit).
Arguments Returned {A} value.
Arguments Thrown {A} error.

Definition projectFutureCycles_call (lastKnownCycle : HistoricalCycle)
    (pattern : BillingCyclePattern) (monthsAhead : Z)
    : Completion (list BillingCycleProjection) :=
  Returned (projectFutureCycles lastKnownCycle pattern monthsAhead).

(** ** The detector: assignment and confidence *)

Fixpoint assignTransactionToCycle (transactionDate : Date)
    (cycles : list BillingCycleProjection) : option BillingCycleProjection :=
  match cycles with
  | [] => None
  | cycle :: rest =>
    if (cycleStartDate cycle <=? transactionDate) &&
       (transactionDate <=? cycleEndDate cycle)
    then Some cycle
    else assignTransactionToCycle transactionDate rest
  end.

Definition calculateCycleConfidence (dataSource : DataSource)
    (dataAgeHours patternConfidence : Q) : Q :=
  let confidence := patternConfidence in
  let confidence :=
    match dataSource with
    | plaid => (confidence * 1.0)%Q
    | inferred => (confidence * 0.85)%Q
    | manual => (confidence * 0.7)%Q
    end in
  let confidence :=
    if Qltb 48 dataAgeHours
    then (confidence * Math_max 0.5 (1 - (dataAgeHours - 48) / 720))%Q
    else confidence in
  Math_max 0 (Math_min 1 confidence).

(** ** Vocabulary of the statements *)

(** Number of occurrences of [x] in [numbers]. *)
Definition occurrences (x : Z) (numbers : list Z) : nat :=
  count_occ Z.eq_dec numbers x.

(** [o] is the frequency table of the numbers [seen]: distinct keys, each
    holding the number of occurrences of its key. *)
Definition table_of (o : JSObject.t) (seen : list Z) : Prop :=
  NoDup (map fst o) /\
  forall k, JSObject.get o k
            = if Nat.eqb (occurrences k seen) 0 then None
              else Some (Z.of_nat (occurrences k seen)).

(** The time values a JavaScript [Date] can hold. *)
Definition time_value_in_range (t : Z) : Prop :=
  - 8640000000000000 <= t <= 8640000000000000.

(** The three consistency tests of the analysis, on a history. *)
Definition isConsistentLengthOf (history : list HistoricalCycle) : bool :=
  Qltb (calculateVariance (cycleLengthsOf (sort_by statementDate history))) 4.

Definition isConsistentDayOf (history : list HistoricalCycle) : bool :=
  checkStatementDayConsistency (sort_by statementDate history).

Definition isConsistentOffsetOf (history : list HistoricalCycle) : bool :=
  Qltb (calculateVariance
          (map (fun cycle => differenceInDays (dueDate cycle) (statementDate cycle))
               (sort_by statementDate history))) 4.

(** The confidence score as a function of the number of cycles and of the
    outcome of the three consistency tests. *)
Definition confidenceScore (count : nat) (len day offset : bool) : Q :=
  let c := 0.5%Q in
  let c := if (6 <=? count)%nat then (c + 0.2)%Q
           else if (3 <=? count)%nat then (c + 0.1)%Q else c in
  let c := if len then (c + 0.15)%Q else c in
  let c := if day then (c + 0.1)%Q else c in
  let c := if offset then (c + 0.05)%Q else c in
  Math_min c 1.0.

(** The [i]-th projection (from 0) of a pattern without a statement day,
    whose cycle length is the whole number [len] of days. *)
Definition fixedLengthProjection (lastKnownCycle : HistoricalCycle)
    (pattern : BillingCyclePattern) (len i : Z) : BillingCycleProjection :=
  let s := statementDate lastKnownCycle in
  {| cycleStartDate := startOfDay (s + (i * len + 1) * msPerDay);
     cycleEndDate := startOfDay (s + (i + 1) * len * msPerDay);
     paymentDueDate :=
       startOfDay (s + ((i + 1) * len + dueDateOffset pattern) * msPerDay);
     isProjected := true;
     projConfidence := (confidence pattern * (1 - inject_Z i * 0.05))%Q |}.

(** A date lies in the closed interval of a cycle. *)
Definition inCycle (eventDate : Z) (cycle : BillingCycleProjection) : Prop :=
  cycleStartDate cycle <= eventDate <= cycleEndDate cycle.

(** The confidence scorer in the words of its contract: the provenance
    factor, the staleness factor and the clamp to [0, 1]. *)
Definition provenanceFactor (dataSource : DataSource) : Q :=
  match dataSource with
  | plaid => 1.0
  | inferred => 0.85
  | manual => 0.7
  end.

Definition stalenessFactor (dataAgeHours : Q) : Q :=
  if Qltb 48 dataAgeHours
  then Math_max 0.5 (1 - (dataAgeHours - 48) / 720)
  else 1.

Definition clampUnit (x : Q) : Q :=
  if Qltb x 0 then 0 else if Qltb 1 x then 1 else x.

(** A history of [count] statements every [len] days from [start], each
    due [offset] days after its statement. *)
Definition regularHistory (start len offset : Z) (count : nat)
    : list HistoricalCycle :=
  map (fun k =>
         let s := addDays start (inject_Z (Z.of_nat k * len)) in
         {| statementDate := s;
            dueDate := addDays s (inject_Z offset);
            statementBalance := None |})
      (seq 0 count).

(** ** Sample data *)

(** A last known cycle closing on 2024-01-15. *)
Definition exampleCycle : HistoricalCycle :=
  {| statementDate := ymd 2024 1 15;
     dueDate := ymd 2024 2 5;
     statementBalance := None |}.

(** A 30-day pattern without a statement day. *)
Definition examplePattern : BillingCyclePattern :=
  {| typicalCycleLength := 30;
     statementDayOfMonth := None;
     dueDateOffset := 21;
     confidence := 0.9 |}.

(** A pattern closing on the 15th of every month. *)
Definition monthlyPattern : BillingCyclePattern :=
  {| typicalCycleLength := 30;
     statementDayOfMonth := Some 15;
     dueDateOffset := 21;
     confidence := 0.9 |}.

(** Statements on 2023-01-01, 2023-01-30, 2023-03-01 and 2023-04-01, each
    due 21 days later: the day differences 29, 30 and 31 are distinct. *)
Definition distinctLengthsHistory : list HistoricalCycle :=
  map (fun s => {| statementDate := s;
                   dueDate := addDays s 21;
                   statementBalance := None |})
      [ymd 2023 1 1; ymd 2023 1 30; ymd 2023 3 1; ymd 2023 4 1].

(** Three and four consecutive statements of one schedule: a statement
    every 30 days, due 21 days later.  The shorter history starts on
    2023-03-31, the longer one a cycle earlier, on 2023-03-01. *)
Definition shorterHistory : list HistoricalCycle :=
  regularHistory (ymd 2023 3 31) 30 21 3.

Definition longerHistory : list HistoricalCycle :=
  regularHistory (ymd 2023 3 1) 30 21 4.

(** Day differences with a tie between 30 and 31. *)
Definition sampleLengths : list Z := [31; 30; 31; 30; 29].


(** ** The detector: confidence message *)

Section ConfidenceMessage.
Import String.
Local Open Scope string_scope.

Definition getConfidenceMessage (confidence : Q) : string :=
  if Qle_bool 0.85 confidence then "Updated today from your bank"
  else if Qle_bool 0.65 confidence
       then "Estimated based on your typical cycle pattern"
  else if Qle_bool 0.45 confidence then "Projection based on limited data"
  else "Unable to sync. Please verify manually".

End ConfidenceMessage.

(** ** Further vocabulary *)

(** Months elapsed since year 0, from the local year and month. *)
Definition monthIndex (t : Z) : Z := getFullYear t * 12 + getMonth t.

(** The days of the month on which the statements of a history close. *)
Definition statementDaysOf (history : list HistoricalCycle) : list Z :=
  map (fun c => getDate (statementDate c)) history.

(** * Properties *)

(** ** The calendar *)

Section CalendarFacts.
Import Civil.

Lemma is_leap_periodic (x k : Z) : is_leap (x + k * 400) = is_leap x.
Proof.
  unfold is_leap.
  replace (x + k * 400) with (x + (k * 100) * 4) at 1 by ring.
  replace (x + k * 400) with (x + (k * 4) * 100) at 1 by ring.
  now rewrite !Z.mod_add by lia.
Qed.

Lemma days_in_month_periodic (y k m : Z) :
  days_in_month (y + k * 400) m = days_in_month y m.
Proof. unfold days_in_month. now rewrite is_leap_periodic. Qed.

Lemma days_in_month_bounds (y m : Z) : 28 <= days_in_month y m <= 31.
Proof.
  unfold days_in_month.
  repeat match goal with |- context [if ?b then _ else _] => destruct b end; lia.
Qed.

(** The year of the era and the day of the year, counted from 1 March. *)
Lemma year_split (doe : Z) :
  0 <= doe < 146097 ->
  let yoe := (doe - doe / 1460 + doe / 36524 - doe / 146096) / 365 in
  let doy := doe - (365 * yoe + yoe / 4 - yoe / 100) in
  0 <= yoe < 400 /\ 0 <= doy /\
  doy < 365 + (if is_leap (yoe + 1) then 1 else 0).
Proof.
  intros H. cbv zeta. unfold is_leap.
  destruct (Z.eqb_spec ((((doe - doe / 1460 + doe / 36524 - doe / 146096) / 365) + 1) mod 4) 0);
  destruct (Z.eqb_spec ((((doe - doe / 1460 + doe / 36524 - doe / 146096) / 365) + 1) mod 100) 0);
  destruct (Z.eqb_spec ((((doe - doe / 1460 + doe / 36524 - doe / 146096) / 365) + 1) mod 400) 0);
  cbn [andb orb negb]; Z.to_euclidean_division_equations; lia.
Qed.

Lemma year_unique (yoe doy : Z) :
  0 <= yoe < 400 -> 0 <= doy < 365 + (if is_leap (yoe + 1) then 1 else 0) ->
  let doe := 365 * yoe + yoe / 4 - yoe / 100 + doy in
  0 <= doe < 146097 /\
  (doe - doe / 1460 + doe / 36524 - doe / 146096) / 365 = yoe.
Proof.
  intros Hy Hd. cbv zeta. unfold is_leap in Hd.
  destruct (Z.eqb_spec ((yoe + 1) mod 4) 0);
  destruct (Z.eqb_spec ((yoe + 1) mod 100) 0);
  destruct (Z.eqb_spec ((yoe + 1) mod 400) 0);
  cbn [andb orb negb] in Hd; Z.to_euclidean_division_equations; lia.
Qed.

(** The month and day of a day of the year counted from 1 March. *)
Lemma month_split (doy leap : Z) :
  0 <= leap <= 1 -> 0 <= doy < leap + 365 ->
  let mp := (5 * doy + 2) / 153 in
  let d := doy - (153 * mp + 2) / 5 + 1 in
  let m := if mp <? 10 then mp + 3 else mp - 9 in
  1 <= m <= 12 /\ (if 2 <? m then m - 3 else m + 9) = mp /\ 1 <= d /\
  d <= (if m =? 2 then leap + 28
        else if (m =? 4) || (m =? 6) || (m =? 9) || (m =? 11) then 30 else 31).
Proof.
  intros Hl H. cbv zeta.
  set (mp := (5 * doy + 2) / 153).
  assert (Hmp : 0 <= mp <= 11) by (subst mp; Z.to_euclidean_division_equations; lia).
  set (m := if mp <? 10 then mp + 3 else mp - 9).
  assert (Hm : m = if mp <? 10 then mp + 3 else mp - 9) by reflexivity.
  clearbody m.
  destruct (Z.ltb_spec mp 10); destruct (Z.ltb_spec 2 m);
    destruct (Z.eqb_spec m 2); destruct (Z.eqb_spec m 4);
    destruct (Z.eqb_spec m 6); destruct (Z.eqb_spec m 9);
    destruct (Z.eqb_spec m 11); cbn [orb]; try lia;
    subst mp; Z.to_euclidean_division_equations; lia.
Qed.

Lemma month_unique (m d leap : Z) :
  0 <= leap <= 1 -> 1 <= m <= 12 ->
  1 <= d <= (if m =? 2 then leap + 28
             else if (m =? 4) || (m =? 6) || (m =? 9) || (m =? 11) then 30 else 31) ->
  let mp := if 2 <? m then m - 3 else m + 9 in
  let doy := (153 * mp + 2) / 5 + d - 1 in
  0 <= doy < leap + 365 /\
  (5 * doy + 2) / 153 = mp /\
  (if mp <? 10 then mp + 3 else mp - 9) = m.
Proof.
  intros Hl Hm Hd. cbv zeta.
  set (mp := if 2 <? m then m - 3 else m + 9).
  assert (Hmp : mp = if 2 <? m then m - 3 else m + 9) by reflexivity.
  clearbody mp.
  destruct (Z.ltb_spec 2 m); destruct (Z.ltb_spec mp 10);
    destruct (Z.eqb_spec m 2); destruct (Z.eqb_spec m 4);
    destruct (Z.eqb_spec m 6); destruct (Z.eqb_spec m 9);
    destruct (Z.eqb_spec m 11); cbn [orb] in Hd; try lia;
    Z.to_euclidean_division_equations; lia.
Qed.

Lemma days_in_month_leap (yoe m : Z) :
  days_in_month (yoe + (if m <=? 2 then 1 else 0)) m
  = if m =? 2 then (if is_leap (yoe + 1) then 1 else 0) + 28
    else if (m =? 4) || (m =? 6) || (m =? 9) || (m =? 11) then 30 else 31.
Proof.
  unfold days_in_month. destruct (Z.eqb_spec m 2) as [->|]; [|reflexivity].
  change (2 <=? 2) with true. cbv iota. now destruct (is_leap (yoe + 1)).
Qed.

Lemma of_doe_spec (doe : Z) :
  0 <= doe < 146097 ->
  let '(yoe, m, d) := of_doe doe in
  0 <= yoe < 400 /\ 1 <= m <= 12 /\
  1 <= d <= days_in_month (yoe + (if m <=? 2 then 1 else 0)) m /\
  doe_of yoe m d = doe.
Proof.
  intros H. unfold of_doe.
  destruct (year_split doe H) as (Hy & Hd0 & Hd1). cbv zeta in Hy, Hd0, Hd1.
  set (yoe := (doe - doe / 1460 + doe / 36524 - doe / 146096) / 365) in *.
  set (doy := doe - (365 * yoe + yoe / 4 - yoe / 100)) in *.
  set (leap := if is_leap (yoe + 1) then 1 else 0) in *.
  assert (Hl : 0 <= leap <= 1) by (subst leap; destruct (is_leap _); lia).
  destruct (month_split doy leap Hl ltac:(lia)) as (Hm & Hmp & Hd & Hd').
  cbv zeta in Hm, Hmp, Hd, Hd'.
  set (mp := (5 * doy + 2) / 153) in *.
  set (m := if mp <? 10 then mp + 3 else mp - 9) in *.
  split; [exact Hy|]. split; [exact Hm|]. split.
  - rewrite days_in_month_leap. fold leap. split; assumption.
  - unfold doe_of. rewrite Hmp. subst doy. ring.
Qed.

Lemma doe_of_spec (yoe m d : Z) :
  0 <= yoe < 400 -> 1 <= m <= 12 ->
  1 <= d <= days_in_month (yoe + (if m <=? 2 then 1 else 0)) m ->
  0 <= doe_of yoe m d < 146097 /\ of_doe (doe_of yoe m d) = (yoe, m, d).
Proof.
  intros Hy Hm Hd. rewrite days_in_month_leap in Hd.
  set (leap := if is_leap (yoe + 1) then 1 else 0) in *.
  assert (Hl : 0 <= leap <= 1) by (subst leap; destruct (is_leap _); lia).
  destruct (month_unique m d leap Hl Hm Hd) as (Hdoy & Emp & Em).
  cbv zeta in Hdoy, Emp, Em.
  set (mp := if 2 <? m then m - 3 else m + 9) in *.
  set (doy := (153 * mp + 2) / 5 + d - 1) in *.
  destruct (year_unique yoe doy Hy ltac:(subst leap; lia)) as (Hdoe & Ey).
  cbv zeta in Hdoe, Ey.
  assert (E : doe_of yoe m d = 365 * yoe + yoe / 4 - yoe / 100 + doy).
  { unfold doe_of. fold mp. fold doy. ring. }
  rewrite E. split; [exact Hdoe|].
  unfold of_doe. rewrite Ey.
  replace (365 * yoe + yoe / 4 - yoe / 100 + doy - (365 * yoe + yoe / 4 - yoe / 100))
    with doy by ring.
  rewrite Emp, Em. f_equal. subst doy. ring.
Qed.

Lemma era_split (e r n : Z) : 0 < n -> 0 <= r < n -> (e * n + r) / n = e.
Proof.
  intros Hn Hr. symmetry. apply (Z.div_unique _ _ _ r); lia.
Qed.

(** Every day number is a valid calendar date, and converting that date
    back gives the day number. *)
Lemma civil_from_days_spec (z : Z) :
  let '(y, m, d) := civil_from_days z in
  1 <= m <= 12 /\ 1 <= d <= days_in_month y m /\ days_from_civil y m d = z.
Proof.
  unfold civil_from_days.
  set (z' := z + 719468).
  set (era := z' / 146097).
  set (doe := z' - era * 146097).
  assert (Hdoe : 0 <= doe < 146097).
  { subst doe era. pose proof (Z.mod_pos_bound z' 146097).
    pose proof (Z.div_mod z' 146097). lia. }
  pose proof (of_doe_spec doe Hdoe) as S.
  destruct (of_doe doe) as [[yoe m] d].
  destruct S as (Hy & Hm & Hd & Hdo).
  set (c := if m <=? 2 then 1 else 0) in *.
  split; [exact Hm|]. split.
  - replace (yoe + era * 400 + c) with (yoe + c + era * 400) by ring.
    rewrite days_in_month_periodic. exact Hd.
  - unfold days_from_civil.
    assert (E : (if m <=? 2 then yoe + era * 400 + c - 1 else yoe + era * 400 + c)
                = era * 400 + yoe).
    { subst c. destruct (m <=? 2); ring. }
    rewrite E. rewrite (era_split era yoe 400) by lia.
    replace (era * 400 + yoe - era * 400) with yoe by ring.
    rewrite Hdo. subst doe z'. ring.
Qed.

(** Every valid calendar date is recovered from its day number. *)
Lemma civil_from_days_from_civil (y m d : Z) :
  1 <= m <= 12 -> 1 <= d <= days_in_month y m ->
  civil_from_days (days_from_civil y m d) = (y, m, d).
Proof.
  intros Hm Hd. unfold days_from_civil, civil_from_days.
  set (c := if m <=? 2 then 1 else 0).
  set (y' := if m <=? 2 then y - 1 else y).
  assert (Ey : y = y' + c) by (subst y' c; destruct (m <=? 2); ring).
  set (era := y' / 400).
  set (yoe := y' - era * 400).
  assert (Hyoe : 0 <= yoe < 400).
  { subst yoe era. pose proof (Z.mod_pos_bound y' 400).
    pose proof (Z.div_mod y' 400). lia. }
  assert (Hd' : 1 <= d <= days_in_month (yoe + c) m).
  { replace (yoe + c) with (y + (- era) * 400) by (subst yoe; lia).
    rewrite days_in_month_periodic. exact Hd. }
  destruct (doe_of_spec yoe m d Hyoe Hm Hd') as [Hb Ho].
  replace (era * 146097 + doe_of yoe m d - 719468 + 719468)
    with (era * 146097 + doe_of yoe m d) by ring.
  rewrite (era_split era (doe_of yoe m d) 146097) by lia.
  replace (era * 146097 + doe_of yoe m d - era * 146097)
    with (doe_of yoe m d) by ring.
  rewrite Ho. fold c. f_equal. f_equal. subst yoe. lia.
Qed.

(** Day number 0 is 1 January 1970. *)
Lemma days_from_civil_epoch : days_from_civil 1970 1 1 = 0.
Proof. reflexivity. Qed.

Lemma days_from_civil_day (y m d : Z) :
  days_from_civil y m d = days_from_civil y m 1 + d - 1.
Proof. unfold days_from_civil, doe_of. ring. Qed.

Lemma days_to_march_step (y : Z) :
  days_to_march y = days_to_march (y - 1) + 365 + (if is_leap y then 1 else 0).
Proof.
  unfold days_to_march, is_leap.
  destruct (Z.eqb_spec (y mod 4) 0); destruct (Z.eqb_spec (y mod 100) 0);
    destruct (Z.eqb_spec (y mod 400) 0); cbn [andb orb negb];
    Z.to_euclidean_division_equations; lia.
Qed.

(** The first of a month is one month length after the first of the
    previous month. *)
Lemma days_from_civil_next_month (y m : Z) :
  1 <= m <= 11 ->
  days_from_civil y (m + 1) 1 = days_from_civil y m 1 + days_in_month y m.
Proof.
  intros Hm.
  destruct (Z.eq_dec m 2) as [->|Hne].
  - pose proof (days_to_march_step y) as S.
    unfold days_from_civil, doe_of, days_in_month.
    change (2 + 1 <=? 2) with false. change (2 <=? 2) with true.
    change (2 <? 2 + 1) with true. change (2 <? 2) with false.
    change (2 =? 2) with true. cbv iota.
    unfold days_to_march in S.
    change ((153 * (2 + 1 - 3) + 2) / 5) with 0.
    change ((153 * (2 + 9) + 2) / 5) with 337.
    destruct (is_leap y); lia.
  - assert (Cases : m = 1 \/ m = 3 \/ m = 4 \/ m = 5 \/ m = 6 \/ m = 7 \/
                    m = 8 \/ m = 9 \/ m = 10 \/ m = 11) by lia.
    unfold days_from_civil, doe_of, days_in_month.
    repeat (destruct Cases as [->|Cases]); try subst m;
      cbn -[Z.div Z.modulo Z.mul Z.add Z.sub]; cbn; lia.
Qed.

Lemma days_from_civil_next_year (y : Z) :
  days_from_civil (y + 1) 1 1 = days_from_civil y 12 1 + days_in_month y 12.
Proof.
  unfold days_from_civil, doe_of, days_in_month.
  cbn -[Z.div Z.modulo Z.mul Z.add Z.sub].
  replace (y + 1 - 1) with y by ring. cbn. lia.
Qed.

End CalendarFacts.

(** ** Time values and their calendar fields *)

Lemma msPerDay_pos : 0 < msPerDay.
Proof. reflexivity. Qed.

Lemma TimeWithinDay_bounds (t : Z) : 0 <= TimeWithinDay t < msPerDay.
Proof. apply Z.mod_pos_bound, msPerDay_pos. Qed.

Lemma MakeDate_Day (t : Z) : MakeDate (Day t) (TimeWithinDay t) = t.
Proof.
  unfold MakeDate, Day, TimeWithinDay.
  pose proof (Z.div_mod t msPerDay). unfold msPerDay in *. lia.
Qed.

Lemma Day_MakeDate (day time : Z) :
  0 <= time < msPerDay -> Day (MakeDate day time) = day.
Proof.
  intros H. unfold Day, MakeDate.
  symmetry. apply (Z.div_unique _ _ _ time); unfold msPerDay in *; lia.
Qed.

Lemma TimeWithinDay_MakeDate (day time : Z) :
  0 <= time < msPerDay -> TimeWithinDay (MakeDate day time) = time.
Proof.
  intros H. unfold TimeWithinDay, MakeDate.
  symmetry. apply (Z.mod_unique _ _ day); unfold msPerDay in *; lia.
Qed.

Lemma MakeDay_date (y m dt : Z) : MakeDay y m dt = MakeDay y m 1 + dt - 1.
Proof. unfold MakeDay. ring. Qed.

(** Carrying the month: month [m] of year [y] is month [m mod 12] of year
    [y + m / 12]. *)
Lemma MakeDay_month_carry (y m dt : Z) :
  MakeDay y m dt = MakeDay (y + m / 12) (m mod 12) dt.
Proof.
  unfold MakeDay.
  rewrite Z.mod_mod by lia.
  pose proof (Z.mod_pos_bound m 12 ltac:(lia)).
  rewrite (Z.div_small (m mod 12) 12) by lia.
  now rewrite Z.add_0_r.
Qed.

Lemma MakeDay_next_month (y m : Z) :
  MakeDay y (m + 1) 1
  = MakeDay y m 1 + Civil.days_in_month (y + m / 12) (m mod 12 + 1).
Proof.
  unfold MakeDay.
  pose proof (Z.mod_pos_bound m 12 ltac:(lia)) as Hr.
  pose proof (Z.div_mod m 12 ltac:(lia)) as Hm.
  destruct (Z.eq_dec (m mod 12) 11) as [E|NE].
  - assert (Hq : (m + 1) / 12 = m / 12 + 1).
    { symmetry. apply (Z.div_unique _ _ _ 0); lia. }
    assert (Hr' : (m + 1) mod 12 = 0).
    { symmetry. apply (Z.mod_unique _ _ (m / 12 + 1)); lia. }
    rewrite Hq, Hr', E.
    replace (y + (m / 12 + 1)) with (y + m / 12 + 1) by ring.
    change (0 + 1) with 1. change (11 + 1) with 12.
    rewrite days_from_civil_next_year. ring.
  - assert (Hq : (m + 1) / 12 = m / 12).
    { symmetry. apply (Z.div_unique _ _ _ (m mod 12 + 1)); lia. }
    assert (Hr' : (m + 1) mod 12 = m mod 12 + 1).
    { symmetry. apply (Z.mod_unique _ _ (m / 12)); lia. }
    rewrite Hq, Hr'.
    rewrite days_from_civil_next_month by lia. ring.
Qed.

(** The year, month and day of the month of a time value form a valid
    calendar date whose day number is the day of the time value. *)
Lemma date_fields (t : Z) :
  0 <= MonthFromTime t <= 11 /\
  1 <= DateFromTime t <= Civil.days_in_month (YearFromTime t) (MonthFromTime t + 1) /\
  Day t = MakeDay (YearFromTime t) (MonthFromTime t) (DateFromTime t).
Proof.
  unfold MonthFromTime, DateFromTime, YearFromTime.
  pose proof (civil_from_days_spec (Day t)) as S.
  destruct (Civil.civil_from_days (Day t)) as [[y m] d].
  destruct S as (Hm & Hd & E).
  replace (m - 1 + 1) with m by ring.
  split; [lia|]. split; [exact Hd|].
  unfold MakeDay.
  rewrite (Z.div_small (m - 1) 12) by lia.
  rewrite (Z.mod_small (m - 1) 12) by lia.
  rewrite Z.add_0_r. replace (m - 1 + 1) with m by ring.
  rewrite (days_from_civil_day y m d) in E. lia.
Qed.

(** The fields of a time value built from a valid date. *)
Lemma fields_of_MakeDate (y m d time : Z) :
  0 <= m <= 11 -> 1 <= d <= Civil.days_in_month y (m + 1) ->
  0 <= time < msPerDay ->
  let t := MakeDate (MakeDay y m d) time in
  YearFromTime t = y /\ MonthFromTime t = m /\ DateFromTime t = d.
Proof.
  intros Hm Hd Ht t.
  unfold YearFromTime, MonthFromTime, DateFromTime.
  subst t. rewrite Day_MakeDate by exact Ht.
  unfold MakeDay.
  rewrite (Z.div_small m 12) by lia.
  rewrite (Z.mod_small m 12) by lia.
  rewrite Z.add_0_r.
  replace (Civil.days_from_civil y (m + 1) 1 + d - 1)
    with (Civil.days_from_civil y (m + 1) d)
    by (rewrite (days_from_civil_day y (m + 1) d); ring).
  rewrite civil_from_days_from_civil by lia.
  repeat split; ring.
Qed.

(** The same for a month that still has to be carried into the year. *)
Lemma fields_of_MakeDate_carry (y m d time : Z) :
  1 <= d <= Civil.days_in_month (y + m / 12) (m mod 12 + 1) ->
  0 <= time < msPerDay ->
  let t := MakeDate (MakeDay y m d) time in
  YearFromTime t = y + m / 12 /\ MonthFromTime t = m mod 12 /\
  DateFromTime t = d.
Proof.
  intros Hd Ht. rewrite MakeDay_month_carry.
  apply fields_of_MakeDate; try assumption.
  pose proof (Z.mod_pos_bound m 12 ltac:(lia)). lia.
Qed.

(** ** Number arguments *)

Lemma ToIntegerOrInfinity_floor (q : Q) :
  (0 <= q)%Q -> ToIntegerOrInfinity q = Qfloor q.
Proof.
  intros H. unfold ToIntegerOrInfinity, Qfloor. destruct q as [n d].
  unfold Qle in H. simpl in *.
  apply Z.quot_div_nonneg; lia.
Qed.

Lemma ToIntegerOrInfinity_ceiling (q : Q) :
  (q <= 0)%Q -> ToIntegerOrInfinity q = Qceiling q.
Proof.
  intros H. unfold ToIntegerOrInfinity, Qceiling, Qfloor. destruct q as [n d].
  unfold Qle in H. simpl in *.
  replace n with (- (- n)) at 1 by ring.
  rewrite Z.quot_opp_l by lia.
  rewrite Z.quot_div_nonneg by lia. reflexivity.
Qed.

Lemma ToIntegerOrInfinity_comp (p q : Q) :
  (p == q)%Q -> ToIntegerOrInfinity p = ToIntegerOrInfinity q.
Proof.
  intros E.
  destruct (Qlt_le_dec p 0) as [Hneg|Hpos].
  - rewrite !ToIntegerOrInfinity_ceiling.
    + now rewrite E.
    + rewrite <- E. now apply Qlt_le_weak.
    + now apply Qlt_le_weak.
  - rewrite !ToIntegerOrInfinity_floor.
    + now rewrite E.
    + now rewrite <- E.
    + exact Hpos.
Qed.

Lemma ToIntegerOrInfinity_Z (n : Z) : ToIntegerOrInfinity (inject_Z n) = n.
Proof. unfold ToIntegerOrInfinity. simpl. apply Z.quot_1_r. Qed.

Lemma Qfloor_plus_Z (n : Z) (q : Q) : Qfloor (inject_Z n + q) = n + Qfloor q.
Proof.
  destruct q as [a b]. unfold Qfloor, Qplus, inject_Z. cbn [Qnum Qden].
  rewrite Z.mul_1_r, Pos.mul_1_l. apply Z.div_add_l. lia.
Qed.

(** ** [setDate], [addDays] and [startOfDay] *)

Lemma setDate_time (t : Z) (dt : Q) :
  JSDate.setDate t dt
  = t + (ToIntegerOrInfinity dt - DateFromTime t) * msPerDay.
Proof.
  unfold JSDate.setDate.
  destruct (date_fields t) as (_ & _ & E).
  rewrite MakeDay_date. rewrite (MakeDay_date _ _ (DateFromTime t)) in E.
  pose proof (MakeDate_Day t) as R.
  unfold MakeDate in *. rewrite E in R. lia.
Qed.

Lemma Day_shift (t n : Z) : Day (t + n * msPerDay) = Day t + n.
Proof. unfold Day. apply Z.div_add. unfold msPerDay. lia. Qed.

Lemma TimeWithinDay_shift (t n : Z) :
  TimeWithinDay (t + n * msPerDay) = TimeWithinDay t.
Proof. unfold TimeWithinDay. apply Z.mod_add. unfold msPerDay. lia. Qed.

(** Adding a whole number of days shifts the time value by that many days. *)
Lemma addDays_Z (t n : Z) : addDays t (inject_Z n) = t + n * msPerDay.
Proof.
  unfold addDays.
  destruct (Qeq_bool (inject_Z n) 0) eqn:E.
  - apply Qeq_bool_eq in E. unfold Qeq in E. simpl in E.
    assert (n = 0) by lia. subst n. ring.
  - rewrite setDate_time. unfold getDate.
    rewrite <- inject_Z_plus, ToIntegerOrInfinity_Z. ring.
Qed.

Lemma addDays_comp (t : Z) (p q : Q) : (p == q)%Q -> addDays t p = addDays t q.
Proof.
  intros E. unfold addDays.
  assert (Eb : Qeq_bool p 0 = Qeq_bool q 0).
  { destruct (Qeq_bool p 0) eqn:Ep; destruct (Qeq_bool q 0) eqn:Eq0; trivial.
    - apply Qeq_bool_eq in Ep. apply Qeq_bool_neq in Eq0.
      exfalso. apply Eq0. now rewrite <- E.
    - apply Qeq_bool_eq in Eq0. apply Qeq_bool_neq in Ep.
      exfalso. apply Ep. now rewrite E. }
  rewrite Eb. destruct (Qeq_bool q 0); [reflexivity|].
  rewrite !setDate_time. f_equal. f_equal. f_equal.
  apply ToIntegerOrInfinity_comp. now rewrite E.
Qed.

(** Adding a non-negative, possibly fractional, number of days adds its
    integer part. *)
Lemma addDays_nonneg (t : Z) (q : Q) :
  (0 <= q)%Q -> addDays t q = t + Qfloor q * msPerDay.
Proof.
  intros Hq. unfold addDays.
  destruct (Qeq_bool q 0) eqn:E.
  - apply Qeq_bool_eq in E. rewrite E. change (Qfloor 0) with 0.
    ring.
  - rewrite setDate_time. unfold getDate.
    destruct (date_fields t) as (_ & Hd & _).
    rewrite ToIntegerOrInfinity_floor.
    + rewrite Qfloor_plus_Z. ring.
    + rewrite <- (Qplus_0_r 0). apply Qplus_le_compat; [|exact Hq].
      change 0%Q with (inject_Z 0). rewrite <- Zle_Qle. lia.
Qed.

Lemma startOfDay_time (t : Z) : startOfDay t = Day t * msPerDay.
Proof. unfold startOfDay, setHours, MakeDate, MakeTime. ring. Qed.

Lemma startOfDay_shift (t n : Z) :
  startOfDay (t + n * msPerDay) = startOfDay t + n * msPerDay.
Proof. rewrite !startOfDay_time, Day_shift. ring. Qed.

(** ** [endOfMonth], [adjustForMonthEnd] and [addMonths] *)

(** Day 0 of the following month is the last day of the month. *)
Lemma MakeDay_last_day (y m : Z) :
  MakeDay y (m + 1) 0
  = MakeDay y m (Civil.days_in_month (y + m / 12) (m mod 12 + 1)).
Proof.
  rewrite (MakeDay_date y (m + 1) 0), MakeDay_next_month.
  rewrite (MakeDay_date y m (Civil.days_in_month _ _)). ring.
Qed.

Lemma endOfMonth_fields (t : Z) :
  YearFromTime (endOfMonth t) = YearFromTime t /\
  MonthFromTime (endOfMonth t) = MonthFromTime t /\
  DateFromTime (endOfMonth t)
  = Civil.days_in_month (YearFromTime t) (MonthFromTime t + 1).
Proof.
  destruct (date_fields t) as (Hm & Hd & E).
  unfold endOfMonth, setHours, setFullYear, getFullYear, getMonth.
  rewrite Day_MakeDate by apply TimeWithinDay_bounds.
  rewrite MakeDay_last_day.
  rewrite (Z.div_small (MonthFromTime t) 12) by lia.
  rewrite (Z.mod_small (MonthFromTime t) 12) by lia.
  rewrite Z.add_0_r.
  apply fields_of_MakeDate.
  - exact Hm.
  - pose proof (days_in_month_bounds (YearFromTime t) (MonthFromTime t + 1)). lia.
  - unfold MakeTime, msPerDay. lia.
Qed.

(** Setting a day that exists in the month keeps the month and the year. *)
Lemma setDate_fields (t n : Z) :
  1 <= n <= Civil.days_in_month (YearFromTime t) (MonthFromTime t + 1) ->
  YearFromTime (DateFns.setDate t n) = YearFromTime t /\
  MonthFromTime (DateFns.setDate t n) = MonthFromTime t /\
  DateFromTime (DateFns.setDate t n) = n.
Proof.
  intros Hn. destruct (date_fields t) as (Hm & _ & _).
  unfold DateFns.setDate, JSDate.setDate. rewrite ToIntegerOrInfinity_Z.
  apply fields_of_MakeDate; [exact Hm|exact Hn|apply TimeWithinDay_bounds].
Qed.

Lemma setDate_TimeWithinDay (t : Z) (dt : Q) :
  TimeWithinDay (JSDate.setDate t dt) = TimeWithinDay t.
Proof. rewrite setDate_time. apply TimeWithinDay_shift. Qed.

Lemma adjustForMonthEnd_fields (date targetDay : Z) :
  1 <= targetDay ->
  let r := adjustForMonthEnd date targetDay in
  YearFromTime r = YearFromTime date /\
  MonthFromTime r = MonthFromTime date /\
  DateFromTime r
  = Z.min targetDay
          (Civil.days_in_month (YearFromTime date) (MonthFromTime date + 1)).
Proof.
  intros Ht r. subst r. unfold adjustForMonthEnd, getDate.
  destruct (endOfMonth_fields date) as (_ & _ & ->).
  pose proof (days_in_month_bounds (YearFromTime date) (MonthFromTime date + 1)).
  destruct (Z.ltb_spec (Civil.days_in_month (YearFromTime date)
                                            (MonthFromTime date + 1)) targetDay).
  - rewrite Z.min_r by lia. apply setDate_fields. lia.
  - rewrite Z.min_l by lia. apply setDate_fields. lia.
Qed.

Lemma adjustForMonthEnd_TimeWithinDay (date targetDay : Z) :
  TimeWithinDay (adjustForMonthEnd date targetDay) = TimeWithinDay date.
Proof.
  unfold adjustForMonthEnd, DateFns.setDate.
  destruct (_ <? _); apply setDate_TimeWithinDay.
Qed.

(** One month later: the following month, on the same day of the month or
    on its last day when it is shorter. *)
Lemma addMonths_one_fields (t : Z) :
  let y := YearFromTime t in
  let m := MonthFromTime t in
  let r := addMonths t 1 in
  YearFromTime r = y + (m + 1) / 12 /\
  MonthFromTime r = (m + 1) mod 12 /\
  DateFromTime r
  = Z.min (DateFromTime t)
          (Civil.days_in_month (y + (m + 1) / 12) ((m + 1) mod 12 + 1)) /\
  TimeWithinDay r = TimeWithinDay t.
Proof.
  intros y m r. subst r. unfold addMonths. change (1 =? 0) with false. cbv iota.
  unfold getDate, getMonth, getFullYear. fold m.
  set (dim := Civil.days_in_month (y + (m + 1) / 12) ((m + 1) mod 12 + 1)).
  pose proof (days_in_month_bounds (y + (m + 1) / 12) ((m + 1) mod 12 + 1)) as Hb.
  fold dim in Hb.
  pose proof (TimeWithinDay_bounds t) as Hτ.
  assert (Heod : setMonth t (m + 1 + 1) 0 = MakeDate (MakeDay y (m + 1) dim)
                                                    (TimeWithinDay t)).
  { unfold setMonth. fold y. now rewrite MakeDay_last_day. }
  rewrite Heod.
  destruct (fields_of_MakeDate_carry y (m + 1) dim (TimeWithinDay t))
    as (Ey & Em & Ed); [fold dim; lia|exact Hτ|].
  rewrite Ed, Ey, Em.
  destruct (Z.leb_spec dim (DateFromTime t)).
  - rewrite Ey, Em, Ed. rewrite Z.min_r by lia.
    repeat split. apply TimeWithinDay_MakeDate, Hτ.
  - rewrite Z.min_l by lia. unfold setFullYear.
    destruct (date_fields t) as (_ & Hd & _).
    pose proof (Z.mod_pos_bound (m + 1) 12 ltac:(lia)).
    destruct (fields_of_MakeDate (y + (m + 1) / 12) ((m + 1) mod 12)
                (DateFromTime t) (TimeWithinDay t)) as (Ey' & Em' & Ed');
      [lia|fold dim; lia|exact Hτ|].
    rewrite Ey', Em', Ed'. repeat split.
    apply TimeWithinDay_MakeDate, Hτ.
Qed.

(** ** [differenceInDays] *)

Lemma time_split (t : Z) :
  t = Day t * msPerDay + TimeWithinDay t /\ 0 <= TimeWithinDay t < msPerDay.
Proof.
  split; [|apply TimeWithinDay_bounds].
  pose proof (MakeDate_Day t) as E. unfold MakeDate in E. lia.
Qed.

Lemma full_days_quot (dl dr tl tr ms : Z) :
  0 < ms -> 0 <= tl < ms -> 0 <= tr < ms ->
  let l := dl * ms + tl in
  let r := dr * ms + tr in
  let sign := Z.sgn (l - r) in
  let difference := Z.abs (dl - dr) in
  let l' := l - sign * difference * ms in
  sign * (difference - (if Z.sgn (l' - r) =? - sign then 1 else 0))
  = Z.quot (l - r) ms.
Proof.
  intros Hms Hl Hr l r sign difference l'.
  destruct (Z.lt_trichotomy l r) as [Hlt|[Heq|Hgt]].
  - assert (Hd : dl <= dr) by (subst l r; nia).
    assert (Es : sign = -1) by (subst sign; apply Z.sgn_neg; lia).
    assert (Ed : difference = dr - dl) by (subst difference; lia).
    assert (El' : l' - r = tl - tr) by (subst l'; rewrite Es, Ed; subst l r; ring).
    rewrite El', Es, Ed.
    replace (l - r) with (- (r - l)) by ring.
    rewrite Z.quot_opp_l by lia.
    destruct (Z_le_gt_dec tl tr) as [Hle|Hgt].
    + assert (Hs : Z.sgn (tl - tr) <> 1).
      { intros C. apply Z.sgn_pos_iff in C. lia. }
      destruct (Z.eqb_spec (Z.sgn (tl - tr)) (- -1)); [contradiction|].
      rewrite <- (Z.quot_unique (r - l) ms (dr - dl) (tr - tl));
        [lia|lia|lia|subst l r; ring].
    + assert (Hs : Z.sgn (tl - tr) = 1) by (apply Z.sgn_pos_iff; lia).
      rewrite Hs. change (1 =? - -1) with true. cbv iota.
      rewrite <- (Z.quot_unique (r - l) ms (dr - dl - 1) (ms + tr - tl));
        [lia|lia|lia|subst l r; ring].
  - assert (Es : sign = 0) by (subst sign; apply Z.sgn_null; lia).
    rewrite Es. replace (l - r) with 0 by lia.
    rewrite Z.quot_0_l by lia. ring.
  - assert (Hd : dr <= dl) by (subst l r; nia).
    assert (Es : sign = 1) by (subst sign; apply Z.sgn_pos; lia).
    assert (Ed : difference = dl - dr) by (subst difference; lia).
    assert (El' : l' - r = tl - tr) by (subst l'; rewrite Es, Ed; subst l r; ring).
    rewrite El', Es, Ed.
    destruct (Z_le_gt_dec tr tl) as [Hle|Hgt'].
    + assert (Hs : Z.sgn (tl - tr) <> -1).
      { intros C. apply Z.sgn_neg_iff in C. lia. }
      destruct (Z.eqb_spec (Z.sgn (tl - tr)) (Z.opp 1)); [contradiction|].
      rewrite <- (Z.quot_unique (l - r) ms (dl - dr) (tl - tr));
        [lia|lia|lia|subst l r; ring].
    + assert (Hs : Z.sgn (tl - tr) = -1) by (apply Z.sgn_neg_iff; lia).
      rewrite Hs. change (-1 =? Z.opp 1) with true. cbv iota.
      rewrite <- (Z.quot_unique (l - r) ms (dl - dr - 1) (ms + tl - tr));
        [lia|lia|lia|subst l r; ring].
Qed.

(** The number of full days between two dates, truncated toward zero. *)
Lemma differenceInDays_quot (l r : Z) :
  differenceInDays l r = Z.quot (l - r) msPerDay.
Proof.
  unfold differenceInDays, compareLocalAsc, differenceInCalendarDays.
  rewrite setDate_time, ToIntegerOrInfinity_Z. unfold getDate.
  destruct (time_split l) as (El & Hl). destruct (time_split r) as (Er & Hr).
  pose proof (full_days_quot (Day l) (Day r) (TimeWithinDay l)
                (TimeWithinDay r) msPerDay msPerDay_pos Hl Hr) as Q.
  cbv zeta in Q. rewrite <- El, <- Er in Q. rewrite <- Q.
  replace (l + (DateFromTime l - Z.sgn (l - r) * Z.abs (Day l - Day r)
                - DateFromTime l) * msPerDay - r)
    with (l - Z.sgn (l - r) * Z.abs (Day l - Day r) * msPerDay - r) by ring.
  reflexivity.
Qed.

Lemma differenceInDays_nonneg (l r : Z) :
  r <= l -> 0 <= differenceInDays l r <= (l - r) / msPerDay.
Proof.
  intros H. rewrite differenceInDays_quot.
  rewrite Z.quot_div_nonneg by (pose proof msPerDay_pos; lia).
  split; [|lia]. apply Z.div_pos; [lia|apply msPerDay_pos].
Qed.

Lemma differenceInDays_addDays (t n : Z) :
  differenceInDays (addDays t (inject_Z n)) t = n.
Proof.
  rewrite differenceInDays_quot, addDays_Z.
  replace (t + n * msPerDay - t) with (n * msPerDay) by ring.
  apply Z.quot_mul. unfold msPerDay. lia.
Qed.

(** ** Sorting *)

Section SortFacts.
Context {A : Type} (key : A -> Z).

Lemma insert_by_perm (x : A) (l : list A) :
  Permutation (insert_by key x l) (x :: l).
Proof.
  induction l as [|y l IH]; cbn [insert_by].
  - reflexivity.
  - destruct (key x <=? key y).
    + reflexivity.
    + rewrite IH. apply perm_swap.
Qed.

Lemma sort_by_perm (l : list A) : Permutation (sort_by key l) l.
Proof.
  induction l as [|x l IH]; cbn [sort_by].
  - reflexivity.
  - rewrite insert_by_perm. now constructor.
Qed.

Lemma sort_by_length (l : list A) : length (sort_by key l) = length l.
Proof. apply Permutation_length, sort_by_perm. Qed.

Lemma sort_by_In (x : A) (l : list A) : In x (sort_by key l) <-> In x l.
Proof.
  split; apply Permutation_in; [|symmetry]; apply sort_by_perm.
Qed.

Lemma insert_by_sorted (x : A) (l : list A) :
  StronglySorted (fun a b => key a <= key b) l -> StronglySorted (fun a b => key a <= key b) (insert_by key x l).
Proof.
  induction 1 as [|y l Hs IH Hy]; cbn [insert_by].
  - repeat constructor.
  - destruct (Z.leb_spec (key x) (key y)) as [Hle|Hgt].
    + constructor; [now constructor|].
      constructor; [exact Hle|].
      rewrite Forall_forall in *. intros z Hz.
      specialize (Hy z Hz). cbv beta in Hy. lia.
    + constructor; [exact IH|].
      rewrite Forall_forall in *. intros z Hz.
      apply (Permutation_in _ (insert_by_perm x l)) in Hz.
      destruct Hz as [<-|Hz]; [lia|now apply Hy].
Qed.

Lemma sort_by_sorted (l : list A) : StronglySorted (fun a b => key a <= key b) (sort_by key l).
Proof.
  induction l as [|x l IH]; cbn [sort_by].
  - constructor.
  - now apply insert_by_sorted.
Qed.

(** In a sorted list every element is below all those after it. *)
Lemma sorted_app_after (pre post : list A) (a b : A) :
  StronglySorted (fun a b => key a <= key b) (pre ++ a :: post) -> In b post -> key a <= key b.
Proof.
  induction pre as [|p pre IH]; cbn [app]; intros Hs Hb.
  - inversion Hs as [|? ? _ Hall]; subst.
    rewrite Forall_forall in Hall. now apply Hall.
  - inversion Hs; subst. now apply IH.
Qed.

End SortFacts.

(** ** The frequency table of [calculateMode] *)

Lemma get_set (o : JSObject.t) (k v k' : Z) :
  JSObject.get (JSObject.set o k v) k'
  = if k' =? k then Some v else JSObject.get o k'.
Proof.
  induction o as [|[k0 v0] o IH]; cbn [JSObject.set JSObject.get].
  - destruct (k' =? k); reflexivity.
  - destruct (Z.eqb_spec k k0) as [->|Hne]; cbn [JSObject.get].
    + destruct (k' =? k0); reflexivity.
    + rewrite IH. destruct (Z.eqb_spec k' k0) as [->|Hne'].
      * destruct (Z.eqb_spec k0 k); [congruence|reflexivity].
      * reflexivity.
Qed.

Lemma get_In (o : JSObject.t) (k v : Z) :
  JSObject.get o k = Some v -> In (k, v) o.
Proof.
  induction o as [|[k0 v0] o IH]; cbn [JSObject.get]; [discriminate|].
  destruct (Z.eqb_spec k k0) as [->|Hne].
  - intros [= ->]. now left.
  - intros H. right. now apply IH.
Qed.

Lemma get_None (o : JSObject.t) (k : Z) :
  JSObject.get o k = None <-> ~ In k (map fst o).
Proof.
  induction o as [|[k0 v0] o IH]; cbn [JSObject.get map fst In].
  - tauto.
  - destruct (Z.eqb_spec k k0) as [->|Hne].
    + split; [discriminate|]. intros H. exfalso. apply H. now left.
    + rewrite IH. split; [intros H [E|I]; [congruence|tauto]|tauto].
Qed.

Lemma In_get (o : JSObject.t) (k v : Z) :
  NoDup (map fst o) -> In (k, v) o -> JSObject.get o k = Some v.
Proof.
  induction o as [|[k0 v0] o IH]; cbn [JSObject.get map fst In]; [tauto|].
  intros Hnd [E|I].
  - injection E as -> ->. now rewrite Z.eqb_refl.
  - inversion Hnd as [|? ? Hnot Hnd']; subst.
    destruct (Z.eqb_spec k k0) as [->|Hne].
    + exfalso. apply Hnot. apply (in_map fst) in I. exact I.
    + now apply IH.
Qed.

Lemma set_keys (o : JSObject.t) (k v : Z) :
  map fst (JSObject.set o k v)
  = match JSObject.get o k with
    | Some _ => map fst o
    | None => map fst o ++ [k]
    end.
Proof.
  induction o as [|[k0 v0] o IH]; cbn [JSObject.set JSObject.get map fst app].
  - reflexivity.
  - destruct (Z.eqb_spec k k0) as [->|Hne]; cbn [map fst].
    + reflexivity.
    + rewrite IH. destruct (JSObject.get o k); reflexivity.
Qed.

Lemma set_NoDup (o : JSObject.t) (k v : Z) :
  NoDup (map fst o) -> NoDup (map fst (JSObject.set o k v)).
Proof.
  intros H. rewrite set_keys.
  destruct (JSObject.get o k) eqn:E; [exact H|].
  apply get_None in E.
  apply NoDup_app; [exact H|repeat constructor; intros []|].
  intros x Hx [<-|[]]. contradiction.
Qed.


Lemma table_of_nil : table_of [] [].
Proof. split; [constructor|reflexivity]. Qed.

Lemma occurrences_snoc (k x : Z) (seen : list Z) :
  occurrences k (seen ++ [x])
  = (occurrences k seen + (if (x =? k)%Z then 1 else 0))%nat.
Proof.
  unfold occurrences. rewrite count_occ_app. cbn [count_occ].
  destruct (Z.eq_dec x k) as [->|Hne].
  - now rewrite Z.eqb_refl.
  - destruct (Z.eqb_spec x k); [contradiction|reflexivity].
Qed.

Lemma table_of_step (o : JSObject.t) (seen : list Z) (x : Z) :
  table_of o seen -> table_of (count_number o x) (seen ++ [x]).
Proof.
  intros [Hnd Hget]. unfold count_number. split.
  - now apply set_NoDup.
  - intros k. rewrite get_set, occurrences_snoc.
    destruct (Z.eqb_spec k x) as [->|Hne].
    + rewrite Z.eqb_refl, Hget.
      destruct (Nat.eqb_spec (occurrences x seen) 0) as [E|NE].
      * rewrite E. reflexivity.
      * destruct (Nat.eqb_spec (occurrences x seen + 1) 0); [lia|].
        f_equal. lia.
    + destruct (Z.eqb_spec x k); [congruence|].
      rewrite Nat.add_0_r. apply Hget.
Qed.

Lemma table_of_fold (numbers : list Z) :
  forall o seen, table_of o seen ->
  table_of (fold_left count_number numbers o) (seen ++ numbers).
Proof.
  induction numbers as [|x numbers IH]; intros o seen H; cbn [fold_left].
  - now rewrite app_nil_r.
  - replace (seen ++ x :: numbers) with ((seen ++ [x]) ++ numbers)
      by (rewrite <- app_assoc; reflexivity).
    apply IH. now apply table_of_step.
Qed.

(** The entries of the table are the pairs of a number of the list and its
    number of occurrences. *)
Lemma table_of_In (o : JSObject.t) (numbers : list Z) (k v : Z) :
  table_of o numbers ->
  In (k, v) o <-> In k numbers /\ v = Z.of_nat (occurrences k numbers).
Proof.
  intros [Hnd Hget]. specialize (Hget k). split.
  - intros H. apply (In_get _ _ _ Hnd) in H. rewrite H in Hget.
    destruct (Nat.eqb_spec (occurrences k numbers) 0) as [E|NE]; [discriminate|].
    injection Hget as ->. split; [|reflexivity].
    unfold occurrences in NE.
    apply (count_occ_In Z.eq_dec). lia.
  - intros [Hin ->]. apply get_In. rewrite Hget.
    apply (count_occ_In Z.eq_dec) in Hin. fold (occurrences k numbers) in Hin.
    destruct (Nat.eqb_spec (occurrences k numbers) 0); [lia|reflexivity].
Qed.

(** [Object.entries] lists every property once. *)
Lemma entries_perm (o : JSObject.t) : Permutation (JSObject.entries o) o.
Proof.
  unfold JSObject.entries. rewrite sort_by_perm.
  induction o as [|e o IH]; cbn [filter]; [reflexivity|].
  destruct (JSObject.is_array_index (fst e)); cbn [negb app].
  - now constructor.
  - rewrite <- Permutation_middle. now constructor.
Qed.

Lemma entries_all_indices (o : JSObject.t) :
  Forall (fun e => JSObject.is_array_index (fst e) = true) o ->
  JSObject.entries o = sort_by fst o.
Proof.
  intros H. unfold JSObject.entries.
  assert (E1 : filter (fun e => JSObject.is_array_index (fst e)) o = o).
  { induction H as [|e o He _ IH]; cbn [filter]; [reflexivity|].
    rewrite He. now f_equal. }
  assert (E2 : filter (fun e => negb (JSObject.is_array_index (fst e))) o = []).
  { clear E1. induction H as [|e o He _ IH]; cbn [filter]; [reflexivity|].
    rewrite He. exact IH. }
  rewrite E1, E2. apply app_nil_r.
Qed.

(** ** The selection loop of [calculateMode] *)

(** Scanning entries keeps the current candidate when no entry exceeds
    [maxFreq], and otherwise ends on the first entry of greatest count. *)
Lemma pick_mode_scan (es : list (Z * Z)) :
  forall maxFreq mode,
  (Forall (fun e => snd e <= maxFreq) es /\
   fold_left pick_mode es (maxFreq, mode) = (maxFreq, mode)) \/
  (exists pre num freq post,
     es = pre ++ (num, freq) :: post /\
     maxFreq < freq /\
     Forall (fun e => snd e < freq) pre /\
     Forall (fun e => snd e <= freq) post /\
     fold_left pick_mode es (maxFreq, mode) = (freq, Some num)).
Proof.
  induction es as [|[num freq] es IH]; intros maxFreq mode; cbn [fold_left].
  - left. split; [constructor|reflexivity].
  - replace (pick_mode (maxFreq, mode) (num, freq))
      with (if maxFreq <? freq then (freq, Some num) else (maxFreq, mode))
      by reflexivity.
    destruct (Z.ltb_spec maxFreq freq) as [Hlt|Hge].
    + right. destruct (IH freq (Some num))
        as [[Hall E]|(pre & n & f & post & Ees & Hf & Hpre & Hpost & E)].
      * exists [], num, freq, es.
        split; [reflexivity|]. split; [exact Hlt|].
        split; [constructor|]. split; assumption.
      * exists ((num, freq) :: pre), n, f, post. subst es.
        split; [reflexivity|]. split; [lia|].
        split; [constructor; [exact Hf|exact Hpre]|]. split; assumption.
    + destruct (IH maxFreq mode)
        as [[Hall E]|(pre & n & f & post & Ees & Hf & Hpre & Hpost & E)].
      * left. split; [constructor; [exact Hge|exact Hall]|exact E].
      * right. exists ((num, freq) :: pre), n, f, post. subst es.
        split; [reflexivity|]. split; [exact Hf|].
        split; [constructor; [cbn [snd]; lia|exact Hpre]|]. split; assumption.
Qed.

(** The result of [calculateMode] on a non-empty list, in terms of the
    entries of its frequency table. *)
Lemma calculateMode_entries (numbers : list Z) :
  numbers <> [] ->
  exists pre m post,
    JSObject.entries (fold_left count_number numbers [])
    = pre ++ (m, Z.of_nat (occurrences m numbers)) :: post /\
    In m numbers /\
    Forall (fun e => snd e < Z.of_nat (occurrences m numbers)) pre /\
    Forall (fun e => snd e <= Z.of_nat (occurrences m numbers)) post /\
    calculateMode numbers = Some m.
Proof.
  intros Hne.
  pose proof (table_of_fold numbers [] [] table_of_nil) as T.
  cbn [app] in T.
  set (o := fold_left count_number numbers []) in *.
  assert (Hent : forall k v, In (k, v) (JSObject.entries o) <->
                             In k numbers /\ v = Z.of_nat (occurrences k numbers)).
  { intros k v. rewrite <- (table_of_In o numbers k v T).
    split; apply Permutation_in; [|symmetry]; apply entries_perm. }
  assert (Hcalc : calculateMode numbers
                  = snd (fold_left pick_mode (JSObject.entries o) (0, None))).
  { destruct numbers; [contradiction|reflexivity]. }
  destruct (pick_mode_scan (JSObject.entries o) 0 None)
    as [[Hall E]|(pre & m & f & post & Ees & Hf & Hpre & Hpost & E)].
  - exfalso. destruct numbers as [|x numbers]; [contradiction|].
    assert (Hx : In (x, Z.of_nat (occurrences x (x :: numbers)))
                    (JSObject.entries o)).
    { apply Hent. split; [now left|reflexivity]. }
    rewrite Forall_forall in Hall. specialize (Hall _ Hx). cbn [snd] in Hall.
    unfold occurrences in Hall. cbn [count_occ] in Hall.
    destruct (Z.eq_dec x x); [lia|contradiction].
  - assert (Hm : In (m, f) (JSObject.entries o)).
    { rewrite Ees. apply in_elt. }
    apply Hent in Hm. destruct Hm as [Hin ->].
    exists pre, m, post. rewrite Hcalc, E. auto.
Qed.

(** ** [calculateMode] *)

(** On a non-empty list the mode is a number of the list that no other
    number outnumbers. *)
Lemma calculateMode_max (numbers : list Z) :
  numbers <> [] ->
  exists m, calculateMode numbers = Some m /\ In m numbers /\
            forall x, (occurrences x numbers <= occurrences m numbers)%nat.
Proof.
  intros Hne.
  destruct (calculateMode_entries numbers Hne)
    as (pre & m & post & Ees & Hin & Hpre & Hpost & E).
  exists m. split; [exact E|]. split; [exact Hin|].
  intros x.
  destruct (Nat.eq_dec (occurrences x numbers) 0) as [Z0|NZ]; [lia|].
  assert (Hx : In (x, Z.of_nat (occurrences x numbers))
                  (JSObject.entries (fold_left count_number numbers []))).
  { apply (Permutation_in _ (Permutation_sym (entries_perm _))).
    apply (table_of_In _ numbers).
    - apply (table_of_fold numbers [] [] table_of_nil).
    - split; [|reflexivity]. apply (count_occ_In Z.eq_dec).
      unfold occurrences in NZ. lia. }
  rewrite Ees in Hx. apply in_app_or in Hx.
  rewrite Forall_forall in Hpre, Hpost.
  destruct Hx as [Hx|[Hx|Hx]].
  - specialize (Hpre _ Hx). cbn [snd] in Hpre. lia.
  - injection Hx as -> _. lia.
  - specialize (Hpost _ Hx). cbn [snd] in Hpost. lia.
Qed.

(** When every number is an array index, ties go to the smallest number. *)
Lemma calculateMode_smallest (numbers : list Z) (m : Z) :
  Forall (fun x => 0 <= x < 4294967295) numbers ->
  calculateMode numbers = Some m ->
  forall x, occurrences x numbers = occurrences m numbers -> m <= x.
Proof.
  intros Hidx Hm x Hx.
  assert (Hne : numbers <> []) by (intros ->; discriminate).
  destruct (calculateMode_entries numbers Hne)
    as (pre & m' & post & Ees & Hin & Hpre & Hpost & E).
  rewrite E in Hm. injection Hm as ->.
  pose proof (table_of_fold numbers [] [] table_of_nil) as T. cbn [app] in T.
  set (o := fold_left count_number numbers []) in *.
  assert (Hall : Forall (fun e => JSObject.is_array_index (fst e) = true) o).
  { apply Forall_forall. intros [k v] Hk. cbn [fst].
    apply (table_of_In o numbers k v T) in Hk. destruct Hk as [Hk _].
    rewrite Forall_forall in Hidx. specialize (Hidx k Hk).
    unfold JSObject.is_array_index. apply andb_true_iff. lia. }
  rewrite (entries_all_indices o Hall) in Ees.
  assert (Hpos : (0 < occurrences m numbers)%nat).
  { apply (count_occ_In Z.eq_dec) in Hin. exact Hin. }
  assert (Hxin : In (x, Z.of_nat (occurrences x numbers)) (sort_by fst o)).
  { apply sort_by_In. apply (table_of_In o numbers x _ T).
    split; [|reflexivity]. apply (count_occ_In Z.eq_dec).
    fold (occurrences x numbers). lia. }
  pose proof (sort_by_sorted fst o) as Hs. rewrite Ees in Hs, Hxin.
  apply in_app_or in Hxin. rewrite Forall_forall in Hpre.
  destruct Hxin as [Hp|[Hh|Hp]].
  - specialize (Hpre _ Hp). cbn [snd] in Hpre. lia.
  - injection Hh as -> _. lia.
  - apply (sorted_app_after fst pre post _ _ Hs Hp).
Qed.

(** ** The analysis *)

Lemma analyze_insufficient (history : list HistoricalCycle) :
  (length history < 2)%nat ->
  analyzeBillingCyclePattern history
  = {| pattern := defaultPattern; quality := low; insights := [InsufficientData] |}.
Proof.
  intros H. unfold analyzeBillingCyclePattern.
  destruct (Nat.ltb_spec (length history) 2); [reflexivity|lia].
Qed.

Lemma analyze_typical (history : list HistoricalCycle) :
  (2 <= length history)%nat ->
  typicalCycleLength (pattern (analyzeBillingCyclePattern history))
  = let cycleLengths := cycleLengthsOf (sort_by statementDate history) in
    match calculateMode cycleLengths with
    | Some m => if m =? 0 then calculateMedian cycleLengths else inject_Z m
    | None => calculateMedian cycleLengths
    end.
Proof.
  intros H. unfold analyzeBillingCyclePattern.
  destruct (Nat.ltb_spec (length history) 2); [lia|reflexivity].
Qed.

Lemma analyze_confidence (history : list HistoricalCycle) :
  (2 <= length history)%nat ->
  confidence (pattern (analyzeBillingCyclePattern history))
  = confidenceScore (length history) (isConsistentLengthOf history)
      (isConsistentDayOf history) (isConsistentOffsetOf history).
Proof.
  intros H. unfold analyzeBillingCyclePattern.
  destruct (Nat.ltb_spec (length history) 2); [lia|reflexivity].
Qed.

Lemma cycleLengthsOf_length (l : list HistoricalCycle) :
  length (cycleLengthsOf l) = pred (length l).
Proof.
  induction l as [|a l IH]; [reflexivity|].
  destruct l as [|b l]; [reflexivity|].
  change (cycleLengthsOf (a :: b :: l))
    with (differenceInDays (statementDate b) (statementDate a)
          :: cycleLengthsOf (b :: l)).
  cbn [length pred] in *. now rewrite IH.
Qed.

(** The day differences of a sorted history of representable dates are
    array indices. *)
Lemma cycleLengthsOf_sorted_range (l : list HistoricalCycle) :
  StronglySorted (fun a b => statementDate a <= statementDate b) l ->
  Forall (fun c => time_value_in_range (statementDate c)) l ->
  Forall (fun d => 0 <= d < 4294967295) (cycleLengthsOf l).
Proof.
  induction l as [|a l IH]; intros Hs Hr; [constructor|].
  destruct l as [|b l]; [constructor|].
  change (cycleLengthsOf (a :: b :: l))
    with (differenceInDays (statementDate b) (statementDate a)
          :: cycleLengthsOf (b :: l)).
  inversion Hs as [|? ? Hs' Hab]; subst.
  inversion Hr as [|? ? Ha Hr']; subst.
  constructor; [|now apply IH].
  inversion Hab as [|? ? Hle _]; subst.
  inversion Hr' as [|? ? Hb _]; subst.
  pose proof (differenceInDays_nonneg _ _ Hle) as [H0 H1].
  split; [exact H0|].
  unfold time_value_in_range in *.
  assert ((statementDate b - statementDate a) / msPerDay
          <= 17280000000000000 / msPerDay).
  { apply Z.div_le_mono; [apply msPerDay_pos|lia]. }
  change (17280000000000000 / msPerDay) with 200000000 in *. lia.
Qed.

(** ** The confidence score *)

Lemma Math_min_le_compat (a b c : Q) : (a <= b)%Q -> (Math_min a c <= Math_min b c)%Q.
Proof.
  intros H. unfold Math_min.
  destruct (Qle_bool a c) eqn:Ea; destruct (Qle_bool b c) eqn:Eb.
  - exact H.
  - apply Qle_bool_iff in Ea. exact Ea.
  - apply Qle_bool_iff in Eb.
    assert (Hn : ~ (a <= c)%Q) by (rewrite <- Qle_bool_iff; congruence).
    apply Qnot_le_lt in Hn. apply Qlt_le_weak.
    eapply Qlt_le_trans; [exact Hn|exact H].
  - apply Qle_refl.
Qed.

(** The score does not decrease when the count grows and every test that
    passed still passes. *)
Lemma confidenceScore_monotone (n n' : nat) (l d o l' d' o' : bool) :
  (n <= n')%nat ->
  (l = true -> l' = true) -> (d = true -> d' = true) ->
  (o = true -> o' = true) ->
  (confidenceScore n l d o <= confidenceScore n' l' d' o')%Q.
Proof.
  intros Hn Hl Hd Ho. unfold confidenceScore.
  apply Math_min_le_compat.
  destruct (Nat.leb_spec 6 n); destruct (Nat.leb_spec 6 n'); try lia;
    destruct (Nat.leb_spec 3 n); destruct (Nat.leb_spec 3 n'); try lia;
    destruct l, l'; try (specialize (Hl eq_refl); discriminate);
    destruct d, d'; try (specialize (Hd eq_refl); discriminate);
    destruct o, o'; try (specialize (Ho eq_refl); discriminate);
    unfold Qle; cbn; lia.
Qed.

Lemma confidenceScore_at_least_half (n : nat) (l d o : bool) :
  (0.5 <= confidenceScore n l d o)%Q.
Proof.
  unfold confidenceScore, Math_min.
  destruct (6 <=? n)%nat; destruct (3 <=? n)%nat; destruct l, d, o;
    cbn; unfold Qle; cbn; lia.
Qed.

(** ** The projection loop *)

(** The loop stops on its own test: any fuel that covers the remaining
    iterations gives the same list. *)
Lemma projectLoop_fuel (pattern : BillingCyclePattern) (monthsAhead : Z) :
  forall fuel1 fuel2 i current,
  (Z.to_nat (monthsAhead - i) <= fuel1)%nat ->
  (Z.to_nat (monthsAhead - i) <= fuel2)%nat ->
  projectLoop pattern monthsAhead fuel1 i current
  = projectLoop pattern monthsAhead fuel2 i current.
Proof.
  induction fuel1 as [|f1 IH]; intros fuel2 i current H1 H2.
  - destruct fuel2 as [|f2]; [reflexivity|]. cbn [projectLoop].
    destruct (Z.ltb_spec i monthsAhead); [lia|reflexivity].
  - destruct fuel2 as [|f2]; cbn [projectLoop];
      destruct (Z.ltb_spec i monthsAhead); try reflexivity; try lia.
    f_equal. apply IH; lia.
Qed.

Lemma projectLoop_length (pattern : BillingCyclePattern) (monthsAhead : Z) :
  forall fuel i current,
  length (projectLoop pattern monthsAhead fuel i current)
  = Nat.min fuel (Z.to_nat (monthsAhead - i)).
Proof.
  induction fuel as [|f IH]; intros i current; cbn [projectLoop].
  - reflexivity.
  - destruct (Z.ltb_spec i monthsAhead); cbn [length].
    + rewrite IH. lia.
    + lia.
Qed.

Lemma projectFutureCycles_length (c : HistoricalCycle)
    (pattern : BillingCyclePattern) (monthsAhead : Z) :
  length (projectFutureCycles c pattern monthsAhead) = Z.to_nat monthsAhead.
Proof.
  unfold projectFutureCycles. rewrite projectLoop_length.
  rewrite Z.sub_0_r. apply Nat.min_id.
Qed.

Lemma projectFutureCycles_negative (c : HistoricalCycle)
    (pattern : BillingCyclePattern) (monthsAhead : Z) :
  monthsAhead <= 0 -> projectFutureCycles c pattern monthsAhead = [].
Proof.
  intros H. apply length_zero_iff_nil.
  rewrite projectFutureCycles_length. lia.
Qed.

(** *** Without a statement day *)

Lemma nextStatementDateOf_fixed (pattern : BillingCyclePattern) (len s : Z) :
  statementDayOfMonth pattern = None ->
  (typicalCycleLength pattern == inject_Z len)%Q ->
  nextStatementDateOf pattern s = s + len * msPerDay.
Proof.
  intros Hnone Hlen. unfold nextStatementDateOf. rewrite Hnone.
  rewrite (addDays_comp _ _ _ Hlen). apply addDays_Z.
Qed.

Lemma projectLoop_fixed (c : HistoricalCycle) (pattern : BillingCyclePattern)
    (monthsAhead len : Z) :
  statementDayOfMonth pattern = None ->
  (typicalCycleLength pattern == inject_Z len)%Q ->
  forall fuel k,
  Z.of_nat k + Z.of_nat fuel <= monthsAhead ->
  projectLoop pattern monthsAhead fuel (Z.of_nat k)
              (statementDate c + Z.of_nat k * len * msPerDay)
  = map (fun j => fixedLengthProjection c pattern len (Z.of_nat j)) (seq k fuel).
Proof.
  intros Hnone Hlen.
  induction fuel as [|f IH]; intros k Hk; cbn [projectLoop seq map].
  - reflexivity.
  - destruct (Z.ltb_spec (Z.of_nat k) monthsAhead); [|lia].
    rewrite (nextStatementDateOf_fixed pattern len _ Hnone Hlen).
    f_equal.
    + unfold fixedLengthProjection.
      change 1%Q with (inject_Z 1). rewrite !addDays_Z.
      f_equal; f_equal; ring.
    + replace (Z.of_nat k + 1) with (Z.of_nat (S k)) by lia.
      replace (statementDate c + Z.of_nat k * len * msPerDay + len * msPerDay)
        with (statementDate c + Z.of_nat (S k) * len * msPerDay) by lia.
      apply IH. lia.
Qed.

(** The decayed confidence is zero at index 20 and negative from 21 on. *)
Lemma decay_sign (conf : Q) (i : Z) :
  (0 < conf)%Q ->
  (i = 20 -> (conf * (1 - inject_Z i * 0.05) == 0)%Q) /\
  (21 <= i -> (conf * (1 - inject_Z i * 0.05) < 0)%Q) /\
  (i < 20 -> (0 < conf * (1 - inject_Z i * 0.05))%Q).
Proof.
  intros Hc. repeat split.
  - intros ->. ring.
  - intros Hi. rewrite Zle_Qle in Hi. change (inject_Z 21) with 21%Q in Hi. nra.
  - intros Hi. rewrite Zlt_Qlt in Hi. change (inject_Z 20) with 20%Q in Hi. nra.
Qed.

(** *** The order of the three dates *)

Lemma nextStatementDateOf_monthly (pattern : BillingCyclePattern) (day s : Z) :
  statementDayOfMonth pattern = Some day -> 1 <= day ->
  let r := nextStatementDateOf pattern s in
  let y := YearFromTime s + (MonthFromTime s + 1) / 12 in
  let m := (MonthFromTime s + 1) mod 12 in
  YearFromTime r = y /\ MonthFromTime r = m /\
  DateFromTime r = Z.min day (Civil.days_in_month y (m + 1)) /\
  TimeWithinDay r = TimeWithinDay s /\
  Day r = MakeDay (YearFromTime s) (MonthFromTime s + 1) 1
          + Z.min day (Civil.days_in_month y (m + 1)) - 1.
Proof.
  intros Hday H1 r y m. subst r. unfold nextStatementDateOf. rewrite Hday.
  destruct (addMonths_one_fields s) as (Ey & Em & _ & Et).
  destruct (adjustForMonthEnd_fields (addMonths s 1) day H1) as (Ey' & Em' & Ed').
  cbv zeta in *. rewrite Ey, Em in *.
  fold y in Ey', Ed'. fold m in Em', Ed'.
  split; [exact Ey'|]. split; [exact Em'|]. split; [exact Ed'|].
  split; [now rewrite adjustForMonthEnd_TimeWithinDay|].
  destruct (date_fields (adjustForMonthEnd (addMonths s 1) day)) as (_ & _ & E).
  rewrite E, Ey', Em', Ed'. subst y m.
  rewrite <- MakeDay_month_carry. apply MakeDay_date.
Qed.

(** With a statement day, the statement after a projected statement is at
    least two days later. *)
Lemma monthly_gap (pattern : BillingCyclePattern) (day s : Z) :
  statementDayOfMonth pattern = Some day -> 1 <= day ->
  let r := nextStatementDateOf pattern s in
  Day r + 1 < Day (nextStatementDateOf pattern r).
Proof.
  intros Hday H1 r.
  destruct (nextStatementDateOf_monthly pattern day s Hday H1)
    as (_ & _ & Ed & _ & _).
  destruct (nextStatementDateOf_monthly pattern day
              (nextStatementDateOf pattern s) Hday H1) as (_ & _ & _ & _ & En).
  fold r in Ed, En. cbv zeta in *.
  destruct (date_fields r) as (Hm & Hd & E).
  rewrite En, E. rewrite MakeDay_next_month, (MakeDay_date _ _ (DateFromTime r)).
  rewrite (Z.div_small (MonthFromTime r) 12) by lia.
  rewrite (Z.mod_small (MonthFromTime r) 12) by lia.
  rewrite Z.add_0_r.
  set (y' := YearFromTime r + (MonthFromTime r + 1) / 12).
  set (m' := (MonthFromTime r + 1) mod 12).
  pose proof (days_in_month_bounds (YearFromTime r) (MonthFromTime r + 1)).
  pose proof (days_in_month_bounds y' (m' + 1)).
  lia.
Qed.

Lemma fixed_gap (pattern : BillingCyclePattern) (s : Z) :
  statementDayOfMonth pattern = None ->
  (2 <= typicalCycleLength pattern)%Q ->
  Day s + 1 < Day (nextStatementDateOf pattern s).
Proof.
  intros Hnone Hlen. unfold nextStatementDateOf. rewrite Hnone.
  rewrite addDays_nonneg.
  - rewrite Day_shift.
    pose proof (Qfloor_resp_le _ _ Hlen) as F.
    change (Qfloor 2) with 2 in F. lia.
  - eapply Qle_trans; [|exact Hlen]. discriminate.
Qed.

(** A later time value with the same time of day is on a later day. *)
Lemma later_day (s r : Z) :
  TimeWithinDay r = TimeWithinDay s -> s + msPerDay < r -> Day s + 1 < Day r.
Proof.
  intros Et Hlt.
  destruct (time_split s) as (Es & Hs). destruct (time_split r) as (Er & Hr).
  rewrite Et in Er. pose proof msPerDay_pos. nia.
Qed.

Lemma projectLoop_head (pattern : BillingCyclePattern) (monthsAhead : Z)
    (fuel : nat) (i s : Z) (a : BillingCycleProjection) :
  nth_error (projectLoop pattern monthsAhead fuel i s) 0 = Some a ->
  cycleStartDate a = startOfDay s + msPerDay /\
  cycleEndDate a = startOfDay (nextStatementDateOf pattern s) /\
  paymentDueDate a
  = startOfDay (nextStatementDateOf pattern s) + dueDateOffset pattern * msPerDay.
Proof.
  destruct fuel as [|f]; cbn [projectLoop]; [discriminate|].
  destruct (i <? monthsAhead); [|discriminate].
  cbn [nth_error]. intros [= <-]. cbn [cycleStartDate cycleEndDate paymentDueDate].
  change 1%Q with (inject_Z 1). rewrite !addDays_Z, !startOfDay_shift.
  repeat split; ring.
Qed.

(** The loop invariant: when consecutive statements are at least two days
    apart, every projection is ordered and starts the day after the
    previous one ended. *)
Lemma projectLoop_ordered (pattern : BillingCyclePattern) (monthsAhead : Z) :
  1 <= dueDateOffset pattern ->
  (forall s, Day (nextStatementDateOf pattern s) + 1
             < Day (nextStatementDateOf pattern (nextStatementDateOf pattern s))) ->
  forall fuel i s,
  Day s + 1 < Day (nextStatementDateOf pattern s) ->
  let ps := projectLoop pattern monthsAhead fuel i s in
  Forall (fun p => cycleStartDate p < cycleEndDate p < paymentDueDate p) ps /\
  forall k a b, nth_error ps k = Some a -> nth_error ps (S k) = Some b ->
                cycleStartDate b = cycleEndDate a + msPerDay.
Proof.
  intros Hoff Hnext.
  induction fuel as [|f IH]; intros i s Hs ps; subst ps.
  - split; [constructor|]. intros [|k] a b; discriminate.
  - pose proof (projectLoop_head pattern monthsAhead (S f) i s) as Hhead.
    cbn [projectLoop] in *.
    destruct (i <? monthsAhead).
    2:{ split; [constructor|]. intros [|k] a b; discriminate. }
    destruct (IH (i + 1) (nextStatementDateOf pattern s) (Hnext s)) as [IHwf IHlink].
    split.
    + constructor; [|exact IHwf].
      destruct (Hhead _ eq_refl) as (E1 & E2 & E3). rewrite E1, E2, E3.
      rewrite !startOfDay_time. pose proof msPerDay_pos. nia.
    + intros [|k] a b Ha Hb.
      * cbn [nth_error] in Ha, Hb. injection Ha as <-.
        cbn [cycleEndDate].
        apply projectLoop_head in Hb. destruct Hb as (E1 & _). exact E1.
      * cbn [nth_error] in Ha, Hb. exact (IHlink k a b Ha Hb).
Qed.

(** * The claims *)

(** ** C1: projection without a statement day *)

(** C1, as stated, fails on its remark about the sign: at index 20 the
    decay factor 1 - 20 x 0.05 is 0, so the confidence is 0 and not
    negative, although the pattern confidence 0.9 is positive. *)
Lemma projection_confidence_zero_at_index_20 :
  statementDayOfMonth examplePattern = None /\
  (0 < confidence examplePattern)%Q /\
  exists projection,
    nth_error (projectFutureCycles exampleCycle examplePattern 21) 20
    = Some projection /\
    (projConfidence projection == 0)%Q /\
    ~ (projConfidence projection < 0)%Q.
Proof.
  split; [reflexivity|]. split; [reflexivity|].
  eexists. split; [vm_compute; reflexivity|].
  split; [reflexivity|discriminate].
Qed.

(** C1, amended. For a pattern without a statement day whose cycle length
    is a whole number of days, the projections are, for i from 0 below
    monthsAhead, the cycle that ends (i + 1) cycle lengths after the last
    known statement, starts one day after the end of the previous one, is
    due [dueDateOffset] days after its end and has confidence
    [confidence x (1 - i x 0.05)].  That confidence has no floor: for a
    positive pattern confidence it is 0 at i = 20 and negative for every
    i from 21 on.  From 2024-01-15 with 30-day cycles, 21 days to the due
    date and confidence 0.9, three projections end on 2024-02-14,
    2024-03-15 and 2024-04-14 with confidences 0.9, 0.855 and 0.81. *)
Theorem projectFutureCycles_fixed_length (lastKnownCycle : HistoricalCycle)
    (pattern : BillingCyclePattern) (monthsAhead len : Z) :
  statementDayOfMonth pattern = None ->
  (typicalCycleLength pattern == inject_Z len)%Q ->
  projectFutureCycles lastKnownCycle pattern monthsAhead
  = map (fun i => fixedLengthProjection lastKnownCycle pattern len (Z.of_nat i))
        (seq 0 (Z.to_nat monthsAhead)) /\
  (forall i,
     cycleEndDate (fixedLengthProjection lastKnownCycle pattern len i)
     = startOfDay (statementDate lastKnownCycle) + (i + 1) * len * msPerDay /\
     paymentDueDate (fixedLengthProjection lastKnownCycle pattern len i)
     = cycleEndDate (fixedLengthProjection lastKnownCycle pattern len i)
       + dueDateOffset pattern * msPerDay) /\
  (forall i, (0 < confidence pattern)%Q ->
     (i = 20 ->
      (projConfidence (fixedLengthProjection lastKnownCycle pattern len i) == 0)%Q) /\
     (21 <= i ->
      (projConfidence (fixedLengthProjection lastKnownCycle pattern len i) < 0)%Q)) /\
  (map cycleEndDate (projectFutureCycles exampleCycle examplePattern 3)
   = [ymd 2024 2 14; ymd 2024 3 15; ymd 2024 4 14] /\
   map paymentDueDate (projectFutureCycles exampleCycle examplePattern 3)
   = [ymd 2024 3 6; ymd 2024 4 5; ymd 2024 5 5] /\
   Forall2 Qeq (map projConfidence (projectFutureCycles exampleCycle examplePattern 3))
           [0.9%Q; 0.855%Q; 0.81%Q]).
Proof.
  intros Hnone Hlen. split; [|split; [|split]].
  - destruct (Z_lt_ge_dec monthsAhead 0) as [Hneg|Hpos].
    + rewrite projectFutureCycles_negative by lia.
      replace (Z.to_nat monthsAhead) with 0%nat by lia. reflexivity.
    + unfold projectFutureCycles.
      pose proof (projectLoop_fixed lastKnownCycle pattern monthsAhead len
                    Hnone Hlen (Z.to_nat monthsAhead) 0) as E.
      cbn [Z.of_nat] in E.
      replace (statementDate lastKnownCycle + 0 * len * msPerDay)
        with (statementDate lastKnownCycle) in E by ring.
      apply E. lia.
  - intros i. unfold fixedLengthProjection.
    cbn [cycleEndDate paymentDueDate].
    rewrite !startOfDay_shift. split; ring.
  - intros i Hc. unfold fixedLengthProjection. cbn [projConfidence].
    destruct (decay_sign (confidence pattern) i Hc) as (H20 & H21 & _).
    split; assumption.
  - split; [vm_compute; reflexivity|]. split; [vm_compute; reflexivity|].
    repeat constructor; vm_compute; reflexivity.
Qed.

Lemma projectFutureCycles_fixed_length_witness :
  projectFutureCycles exampleCycle examplePattern 3
  = map (fun i => fixedLengthProjection exampleCycle examplePattern 30 (Z.of_nat i))
        (seq 0 (Z.to_nat 3)).
Proof.
  apply (projectFutureCycles_fixed_length exampleCycle examplePattern 3 30).
  - reflexivity.
  - reflexivity.
Defined.

(** ** C2: the typical cycle length *)

(** C2. The source sets the typical cycle length to
    [calculateMode(cycleLengths) || calculateMedian(cycleLengths)], under
    the comment [mode or median]; [calculateMode] returns [null] only for
    an empty list, so the median is not reached when all the differences
    are distinct.  For statements on 2023-01-01, 2023-01-30, 2023-03-01
    and 2023-04-01 the differences are 29, 30 and 31, all distinct: their
    median is 30, [calculateMode] returns 29 and the analysis sets the
    typical cycle length to 29, not to the median. *)
Theorem analyze_distinct_lengths_not_median :
  let cycleLengths :=
    cycleLengthsOf (sort_by statementDate distinctLengthsHistory) in
  (2 <= length distinctLengthsHistory)%nat /\
  cycleLengths = [29; 30; 31] /\
  NoDup cycleLengths /\
  (calculateMedian cycleLengths == 30)%Q /\
  calculateMode cycleLengths = Some 29 /\
  (typicalCycleLength (pattern (analyzeBillingCyclePattern distinctLengthsHistory))
   == 29)%Q /\
  ~ (typicalCycleLength (pattern (analyzeBillingCyclePattern distinctLengthsHistory))
     == calculateMedian cycleLengths)%Q.
Proof.
  cbv zeta.
  assert (E : cycleLengthsOf (sort_by statementDate distinctLengthsHistory)
              = [29; 30; 31]) by (vm_compute; reflexivity).
  rewrite E. split; [cbn; lia|]. split; [reflexivity|].
  split; [repeat constructor; cbn; intuition lia|].
  split; [vm_compute; reflexivity|].
  split; [vm_compute; reflexivity|].
  split; [vm_compute; reflexivity|].
  vm_compute. discriminate.
Qed.

(** ** C3: insufficient history *)

(** C3. For the empty history and for every history of a single cycle the
    analysis returns the fixed default pattern (30 days, no statement day,
    21 days to the due date, confidence 0.3), quality [low] and the single
    insight on insufficient data. *)
Theorem analyze_insufficient_history :
  let fallback :=
    {| pattern := {| typicalCycleLength := 30;
                     statementDayOfMonth := None;
                     dueDateOffset := 21;
                     confidence := 0.3 |};
       quality := low;
       insights := [InsufficientData] |} in
  analyzeBillingCyclePattern [] = fallback /\
  forall cycle, analyzeBillingCyclePattern [cycle] = fallback.
Proof.
  split; [|intros cycle]; apply analyze_insufficient; cbn [length]; lia.
Qed.

(** ** C4: confidence and the amount of history *)

(** C4, as stated, fails.  Both sample histories follow one schedule (a
    statement every 30 days, due 21 days later) and the longer one only
    adds the preceding cycle; yet its statements fall on the days 1, 31,
    30, 30, which fail the statement-day test that the days 31, 30, 30 of
    the shorter one pass, and its confidence is 0.8 against 0.9. *)
Lemma analyze_confidence_drops_on_longer_history :
  (exists first, longerHistory = first :: shorterHistory) /\
  cycleLengthsOf (sort_by statementDate shorterHistory) = [30; 30] /\
  cycleLengthsOf (sort_by statementDate longerHistory) = [30; 30; 30] /\
  (confidence (pattern (analyzeBillingCyclePattern shorterHistory)) == 0.9)%Q /\
  (confidence (pattern (analyzeBillingCyclePattern longerHistory)) == 0.8)%Q /\
  (confidence (pattern (analyzeBillingCyclePattern longerHistory))
   < confidence (pattern (analyzeBillingCyclePattern shorterHistory)))%Q.
Proof.
  split.
  { eexists. vm_compute. reflexivity. }
  repeat split; vm_compute; reflexivity.
Qed.

(** C4, amended. When history B has at least as many cycles as history A
    and passes each of the three consistency tests that A passes, the
    confidence computed for B is at least the one computed for A. *)
Theorem analyze_confidence_monotone (A B : list HistoricalCycle) :
  (length A <= length B)%nat ->
  (isConsistentLengthOf A = true -> isConsistentLengthOf B = true) ->
  (isConsistentDayOf A = true -> isConsistentDayOf B = true) ->
  (isConsistentOffsetOf A = true -> isConsistentOffsetOf B = true) ->
  (confidence (pattern (analyzeBillingCyclePattern A))
   <= confidence (pattern (analyzeBillingCyclePattern B)))%Q.
Proof.
  intros Hlen Hl Hd Ho.
  destruct (Nat.lt_ge_cases (length A) 2) as [HA|HA].
  - rewrite (analyze_insufficient A HA). cbn [pattern defaultPattern confidence].
    destruct (Nat.lt_ge_cases (length B) 2) as [HB|HB].
    + rewrite (analyze_insufficient B HB). apply Qle_refl.
    + rewrite (analyze_confidence B HB).
      eapply Qle_trans; [|apply confidenceScore_at_least_half]. discriminate.
  - rewrite (analyze_confidence A HA), (analyze_confidence B) by lia.
    now apply confidenceScore_monotone.
Qed.

Lemma analyze_confidence_monotone_witness :
  (confidence (pattern (analyzeBillingCyclePattern longerHistory))
   <= confidence (pattern (analyzeBillingCyclePattern
                             (regularHistory (ymd 2023 3 1) 30 21 6))))%Q.
Proof.
  apply (analyze_confidence_monotone
           longerHistory (regularHistory (ymd 2023 3 1) 30 21 6)).
  - cbn. lia.
  - intros _. vm_compute. reflexivity.
  - intros H. vm_compute in H. discriminate.
  - intros _. vm_compute. reflexivity.
Defined.

(** ** C5: order of the projected dates *)

(** C5. For a pattern with a cycle length of at least 2 days and a due
    date offset of at least 1 day and, when it has a statement day, a day
    of at least 1 that puts the first projected statement after the first
    cycle start, every projection has its start before its end and its end
    before its due date, and every projection after the first starts
    exactly one day after the end of the previous one. *)
Theorem projectFutureCycles_ordered (lastKnownCycle : HistoricalCycle)
    (pattern : BillingCyclePattern) (monthsAhead : Z) :
  (2 <= typicalCycleLength pattern)%Q ->
  1 <= dueDateOffset pattern ->
  (forall day, statementDayOfMonth pattern = Some day ->
     1 <= day /\
     addDays (statementDate lastKnownCycle) 1
     < nextStatementDateOf pattern (statementDate lastKnownCycle)) ->
  let projections := projectFutureCycles lastKnownCycle pattern monthsAhead in
  Forall (fun p => cycleStartDate p < cycleEndDate p < paymentDueDate p)
         projections /\
  forall i previous next,
    nth_error projections i = Some previous ->
    nth_error projections (S i) = Some next ->
    cycleStartDate next = cycleEndDate previous + msPerDay.
Proof.
  intros Hlen Hoff Hday projections. subst projections.
  unfold projectFutureCycles.
  destruct (statementDayOfMonth pattern) as [day|] eqn:Esdm.
  - destruct (Hday day eq_refl) as [H1 Hfirst].
    apply projectLoop_ordered.
    + exact Hoff.
    + intros s. exact (monthly_gap pattern day s Esdm H1).
    + apply later_day.
      * now destruct (nextStatementDateOf_monthly pattern day
                        (statementDate lastKnownCycle) Esdm H1)
          as (_ & _ & _ & Et & _).
      * change 1%Q with (inject_Z 1) in Hfirst. rewrite addDays_Z in Hfirst. lia.
  - apply projectLoop_ordered.
    + exact Hoff.
    + intros s. now apply fixed_gap.
    + now apply fixed_gap.
Qed.

Lemma projectFutureCycles_ordered_witness :
  Forall (fun p => cycleStartDate p < cycleEndDate p < paymentDueDate p)
         (projectFutureCycles exampleCycle monthlyPattern 6) /\
  forall i previous next,
    nth_error (projectFutureCycles exampleCycle monthlyPattern 6) i
    = Some previous ->
    nth_error (projectFutureCycles exampleCycle monthlyPattern 6) (S i)
    = Some next ->
    cycleStartDate next = cycleEndDate previous + msPerDay.
Proof.
  apply (projectFutureCycles_ordered exampleCycle monthlyPattern 6).
  - discriminate.
  - cbn. lia.
  - intros day [= <-]. split; [lia|vm_compute; reflexivity].
Defined.

(** ** C6: confidence of a cycle *)

Lemma Qle_bool_false (x y : Q) : Qle_bool x y = false -> (y < x)%Q.
Proof.
  intros H. apply Qnot_le_lt. rewrite <- Qle_bool_iff. congruence.
Qed.

Lemma clamp_unit (x y : Q) :
  (x == y)%Q -> (Math_max 0 (Math_min 1 x) == clampUnit y)%Q.
Proof.
  intros E. unfold Math_max, Math_min, clampUnit, Qltb.
  destruct (Qle_bool 1 x) eqn:F1;
    [apply Qle_bool_iff in F1|apply Qle_bool_false in F1];
  repeat match goal with
  | |- context [Qle_bool ?a ?b] =>
      let F := fresh in destruct (Qle_bool a b) eqn:F;
      [apply Qle_bool_iff in F|apply Qle_bool_false in F]
  end; cbn [negb]; lra.
Qed.

(** C6. [calculateCycleConfidence] returns the pattern confidence times
    the provenance factor (1.0 for plaid, 0.85 for inferred, 0.7 for
    manual), times max(0.5, 1 - (age - 48)/720) exactly when the age
    exceeds 48 hours, clamped to the interval from 0 to 1; for plaid data
    aged 72 hours and a pattern confidence of 0.9 the result is 0.87. *)
Theorem calculateCycleConfidence_contract :
  (forall dataSource dataAgeHours patternConfidence,
     (calculateCycleConfidence dataSource dataAgeHours patternConfidence
      == clampUnit (patternConfidence * provenanceFactor dataSource
                    * stalenessFactor dataAgeHours))%Q /\
     (0 <= calculateCycleConfidence dataSource dataAgeHours patternConfidence
      <= 1)%Q) /\
  (calculateCycleConfidence plaid 72 0.9 == 0.9 * 1.0 * Math_max 0.5 (1 - 24 / 720))%Q /\
  (calculateCycleConfidence plaid 72 0.9 == 0.87)%Q.
Proof.
  split; [|split; vm_compute; reflexivity].
  intros dataSource dataAgeHours patternConfidence.
  assert (E : (calculateCycleConfidence dataSource dataAgeHours patternConfidence
               == clampUnit (patternConfidence * provenanceFactor dataSource
                             * stalenessFactor dataAgeHours))%Q).
  { unfold calculateCycleConfidence, stalenessFactor.
    apply clamp_unit.
    destruct dataSource; cbn [provenanceFactor];
      destruct (Qltb 48 dataAgeHours); ring. }
  split; [exact E|]. rewrite E. unfold clampUnit, Qltb.
  destruct (Qle_bool 0 _) eqn:E0; cbn [negb].
  - destruct (Qle_bool _ 1) eqn:E1; cbn [negb].
    + apply Qle_bool_iff in E0, E1. split; assumption.
    + split; discriminate.
  - split; discriminate.
Qed.

(** ** C7: month-end adjustment *)

(** C7. For every date and every target day of at least 1,
    [adjustForMonthEnd] returns a date of the same month and year whose
    day of the month is the smaller of the target day and the length of
    that month; a target of 31 gives the 28th in a February of a common
    year, the 29th in a February of a leap year and the 30th in April. *)
Theorem adjustForMonthEnd_clamps_day (date targetDay : Z) :
  1 <= targetDay ->
  let r := adjustForMonthEnd date targetDay in
  getFullYear r = getFullYear date /\
  getMonth r = getMonth date /\
  getDate r
  = Z.min targetDay (Civil.days_in_month (getFullYear date) (getMonth date + 1)) /\
  (targetDay = 31 -> getMonth date = 1 ->
   getDate r = if Civil.is_leap (getFullYear date) then 29 else 28) /\
  (targetDay = 31 -> getMonth date = 3 -> getDate r = 30).
Proof.
  intros Ht r.
  destruct (adjustForMonthEnd_fields date targetDay Ht) as (Ey & Em & Ed).
  fold r in Ey, Em, Ed. unfold getFullYear, getMonth, getDate.
  split; [exact Ey|]. split; [exact Em|]. split; [exact Ed|].
  split; intros -> Hm; rewrite Ed, Hm.
  - change (Civil.days_in_month (YearFromTime date) (1 + 1))
      with (if Civil.is_leap (YearFromTime date) then 29 else 28).
    destruct (Civil.is_leap (YearFromTime date)); reflexivity.
  - reflexivity.
Qed.

Lemma adjustForMonthEnd_clamps_day_witness :
  getFullYear (adjustForMonthEnd (ymd 2023 2 10) 31) = getFullYear (ymd 2023 2 10) /\
  getMonth (adjustForMonthEnd (ymd 2023 2 10) 31) = getMonth (ymd 2023 2 10) /\
  getDate (adjustForMonthEnd (ymd 2023 2 10) 31)
  = Z.min 31 (Civil.days_in_month (getFullYear (ymd 2023 2 10))
                                  (getMonth (ymd 2023 2 10) + 1)) /\
  (31 = 31 -> getMonth (ymd 2023 2 10) = 1 ->
   getDate (adjustForMonthEnd (ymd 2023 2 10) 31)
   = if Civil.is_leap (getFullYear (ymd 2023 2 10)) then 29 else 28) /\
  (31 = 31 -> getMonth (ymd 2023 2 10) = 3 ->
   getDate (adjustForMonthEnd (ymd 2023 2 10) 31) = 30).
Proof.
  apply (adjustForMonthEnd_clamps_day (ymd 2023 2 10) 31). lia.
Defined.

(** ** C8: a negative number of months *)

(** C8, as stated, fails: with -1 months the call returns normally, with
    the empty list, and reports no error. *)
Lemma projectFutureCycles_negative_months_no_error :
  projectFutureCycles_call exampleCycle examplePattern (-1) = Returned [] /\
  ~ exists error,
      projectFutureCycles_call exampleCycle examplePattern (-1) = Thrown error.
Proof.
  split; [reflexivity|]. intros [error H]. discriminate.
Qed.

(** C8, amended. A call with a negative number of months returns
    normally; its result is the empty list of projections, as for 0
    months. *)
Theorem projectFutureCycles_negative_months_empty
    (lastKnownCycle : HistoricalCycle) (pattern : BillingCyclePattern)
    (monthsAhead : Z) :
  monthsAhead < 0 ->
  projectFutureCycles_call lastKnownCycle pattern monthsAhead = Returned [] /\
  projectFutureCycles_call lastKnownCycle pattern monthsAhead
  = projectFutureCycles_call lastKnownCycle pattern 0.
Proof.
  intros H. unfold projectFutureCycles_call.
  rewrite (projectFutureCycles_negative _ _ monthsAhead) by lia.
  split; reflexivity.
Qed.

Lemma projectFutureCycles_negative_months_empty_witness :
  projectFutureCycles_call exampleCycle monthlyPattern (-3) = Returned [] /\
  projectFutureCycles_call exampleCycle monthlyPattern (-3)
  = projectFutureCycles_call exampleCycle monthlyPattern 0.
Proof.
  apply (projectFutureCycles_negative_months_empty exampleCycle monthlyPattern (-3)).
  lia.
Defined.

(** ** C9: assignment of a date to a cycle *)

(** C9. [assignTransactionToCycle] returns the first cycle, in the order
    given, whose closed interval from start to end contains the date, and
    nothing when no cycle contains it.  A cycle from 2024-02-01 to
    2024-02-29 receives both of these dates and not 2024-03-01. *)
Theorem assignTransactionToCycle_first_containing :
  (forall eventDate cycles,
     match assignTransactionToCycle eventDate cycles with
     | Some cycle =>
         exists before after,
           cycles = before ++ cycle :: after /\
           inCycle eventDate cycle /\
           Forall (fun c => ~ inCycle eventDate c) before
     | None => Forall (fun c => ~ inCycle eventDate c) cycles
     end) /\
  (forall due projected conf,
     let cycle := {| cycleStartDate := ymd 2024 2 1;
                     cycleEndDate := ymd 2024 2 29;
                     paymentDueDate := due;
                     isProjected := projected;
                     projConfidence := conf |} in
     assignTransactionToCycle (ymd 2024 2 1) [cycle] = Some cycle /\
     assignTransactionToCycle (ymd 2024 2 29) [cycle] = Some cycle /\
     assignTransactionToCycle (ymd 2024 3 1) [cycle] = None).
Proof.
  split.
  - intros eventDate cycles.
    induction cycles as [|c cycles IH]; cbn [assignTransactionToCycle].
    + constructor.
    + destruct ((cycleStartDate c <=? eventDate) && (eventDate <=? cycleEndDate c))
        eqn:E.
      * exists [], cycles. split; [reflexivity|]. split; [|constructor].
        apply andb_true_iff in E. unfold inCycle. lia.
      * assert (Hc : ~ inCycle eventDate c).
        { unfold inCycle. apply andb_false_iff in E. lia. }
        destruct (assignTransactionToCycle eventDate cycles) as [found|].
        -- destruct IH as (before & after & -> & Hin & Hbefore).
           exists (c :: before), after.
           split; [reflexivity|]. split; [exact Hin|]. now constructor.
        -- now constructor.
  - intros due projected conf cycle. subst cycle.
    repeat split; reflexivity.
Qed.

(** ** C10: the mode *)

(** C10, as stated, fails on keys that are not array indices: 4294967296
    and 4294967295 both occur once, the table lists them in creation
    order, and the larger one is returned. *)
Lemma calculateMode_large_keys_creation_order :
  let numbers := [4294967296; 4294967295] in
  Forall (fun x => 0 <= x) numbers /\
  calculateMode numbers = Some 4294967296 /\
  occurrences 4294967295 numbers = occurrences 4294967296 numbers /\
  4294967295 < 4294967296.
Proof.
  cbv zeta. split; [repeat constructor; lia|].
  split; [vm_compute; reflexivity|]. split; [vm_compute; reflexivity|lia].
Qed.

(** C10, amended. On a non-empty list of integers [calculateMode] returns
    a number of the list that occurs at least as often as any other, and
    when all the numbers are array indices (from 0 to 2^32 - 2) it is the
    smallest of the numbers that occur that often. *)
Theorem calculateMode_smallest_most_frequent (numbers : list Z) :
  numbers <> [] ->
  exists m,
    calculateMode numbers = Some m /\
    In m numbers /\
    (forall x, (occurrences x numbers <= occurrences m numbers)%nat) /\
    (Forall (fun x => 0 <= x < 4294967295) numbers ->
     forall x, occurrences x numbers = occurrences m numbers -> m <= x).
Proof.
  intros Hne. destruct (calculateMode_max numbers Hne) as (m & Hm & Hin & Hmax).
  exists m. repeat split; try assumption.
  intros Hidx. now apply calculateMode_smallest.
Qed.

Lemma calculateMode_smallest_most_frequent_witness :
  exists m,
    calculateMode sampleLengths = Some m /\
    In m sampleLengths /\
    (forall x, (occurrences x sampleLengths
                <= occurrences m sampleLengths)%nat) /\
    (Forall (fun x => 0 <= x < 4294967295) sampleLengths ->
     forall x, occurrences x sampleLengths
               = occurrences m sampleLengths -> m <= x).
Proof.
  apply (calculateMode_smallest_most_frequent sampleLengths).
  discriminate.
Defined.

(** * Further properties *)

(** ** Sorted lists *)

(** Two sorted lists with the same elements are equal, when equal keys mean
    equal elements. *)
Lemma sorted_perm_eq {A : Type} (key : A -> Z) (l1 l2 : list A) :
  (forall a b, In a l1 -> In b l1 -> key a = key b -> a = b) ->
  StronglySorted (fun a b => key a <= key b) l1 ->
  StronglySorted (fun a b => key a <= key b) l2 ->
  Permutation l1 l2 -> l1 = l2.
Proof.
  revert l2. induction l1 as [|h1 t1 IH]; intros l2 Hinj S1 S2 P.
  - apply Permutation_nil in P. now subst.
  - destruct l2 as [|h2 t2].
    + apply Permutation_sym, Permutation_nil in P. discriminate.
    + inversion S1 as [|? ? S1' F1]; subst. inversion S2 as [|? ? S2' F2]; subst.
      rewrite Forall_forall in F1, F2.
      assert (E : h1 = h2).
      { assert (I2 : In h2 (h1 :: t1))
          by (apply (Permutation_in _ (Permutation_sym P)); now left).
        assert (I1 : In h1 (h2 :: t2)) by (apply (Permutation_in _ P); now left).
        destruct I2 as [E|I2]; [exact E|].
        destruct I1 as [E|I1]; [now symmetry|].
        symmetry. apply Hinj; [now right|now left|].
        specialize (F1 _ I2). specialize (F2 _ I1). cbv beta in F1, F2. lia. }
      subst h2. f_equal. apply IH; try assumption.
      * intros a b Ha Hb. apply Hinj; now right.
      * now apply Permutation_cons_inv in P.
Qed.

Lemma sort_by_perm_eq {A : Type} (key : A -> Z) (l1 l2 : list A) :
  (forall a b, In a l1 -> In b l1 -> key a = key b -> a = b) ->
  Permutation l1 l2 -> sort_by key l1 = sort_by key l2.
Proof.
  intros Hinj P. apply (sorted_perm_eq key).
  - intros a b Ha Hb. apply Hinj; now apply (sort_by_In key).
  - apply sort_by_sorted.
  - apply sort_by_sorted.
  - rewrite !sort_by_perm. exact P.
Qed.

(** A sorted list is left as it is. *)
Lemma sort_by_sorted_id {A : Type} (key : A -> Z) (l : list A) :
  StronglySorted (fun a b => key a <= key b) l -> sort_by key l = l.
Proof.
  induction 1 as [|x l S IH F]; cbn [sort_by]; [reflexivity|].
  rewrite IH. destruct l as [|y l]; [reflexivity|]. cbn [insert_by].
  inversion F as [|? ? Hxy _]; subst.
  destruct (Z.leb_spec (key x) (key y)); [reflexivity|lia].
Qed.

Lemma NoDup_keys_inj {A : Type} (key : A -> Z) (l : list A) :
  NoDup (map key l) ->
  forall a b, In a l -> In b l -> key a = key b -> a = b.
Proof.
  induction l as [|x l IH]; cbn [map]; intros Hnd a b Ha Hb E; [destruct Ha|].
  inversion Hnd as [|? ? Hnot Hnd']; subst.
  destruct Ha as [<-|Ha]; destruct Hb as [<-|Hb].
  - reflexivity.
  - exfalso. apply Hnot. rewrite E. now apply in_map.
  - exfalso. apply Hnot. rewrite <- E. now apply in_map.
  - now apply IH.
Qed.

(** ** Sums of rationals *)

Lemma sumQ_fold (xs : list Q) (a : Q) :
  (fold_left Qplus xs a == a + fold_right Qplus 0 xs)%Q.
Proof.
  revert a. induction xs as [|x xs IH]; intros a; cbn [fold_left fold_right].
  - ring.
  - rewrite IH. ring.
Qed.

Lemma sumQ_cons (x : Q) (xs : list Q) : (sumQ (x :: xs) == x + sumQ xs)%Q.
Proof. unfold sumQ. cbn [fold_left]. rewrite !sumQ_fold. cbn [fold_right]. ring. Qed.

Lemma sumQ_nonneg (xs : list Q) :
  Forall (fun x => (0 <= x)%Q) xs -> (0 <= sumQ xs)%Q.
Proof.
  induction 1 as [|x xs Hx _ IH]; [discriminate|].
  rewrite sumQ_cons. lra.
Qed.

Lemma sumQ_zero (xs : list Q) :
  Forall (fun x => (0 <= x)%Q) xs -> (sumQ xs == 0)%Q ->
  Forall (fun x => (x == 0)%Q) xs.
Proof.
  induction 1 as [|x xs Hx F IH]; intros E; [constructor|].
  rewrite sumQ_cons in E. pose proof (sumQ_nonneg xs F).
  constructor; [lra|apply IH; lra].
Qed.

Lemma sumQ_all_zero (xs : list Q) :
  Forall (fun x => (x == 0)%Q) xs -> (sumQ xs == 0)%Q.
Proof.
  induction 1 as [|x xs Hx _ IH]; [reflexivity|].
  rewrite sumQ_cons. lra.
Qed.

Lemma sumQ_constant (k : Z) (numbers : list Z) :
  (forall x, In x numbers -> x = k) ->
  (sumQ (map inject_Z numbers)
   == inject_Z (Z.of_nat (length numbers)) * inject_Z k)%Q.
Proof.
  induction numbers as [|x numbers IH]; intros H.
  - reflexivity.
  - cbn [map length]. rewrite sumQ_cons, IH by (intros y Hy; apply H; now right).
    rewrite (H x) by now left.
    rewrite Nat2Z.inj_succ. unfold Z.succ. rewrite inject_Z_plus. ring.
Qed.

(** ** The statistical utilities *)

Lemma calculateVariance_nonempty (numbers : list Z) :
  numbers <> [] ->
  calculateVariance numbers
  = (sumQ (map (fun num =>
                  ((inject_Z num
                    - sumQ (map inject_Z numbers)
                      / inject_Z (Z.of_nat (length numbers))) ^ 2)%Q)
               numbers)
     / inject_Z (Z.of_nat (length numbers)))%Q.
Proof. destruct numbers; [contradiction|reflexivity]. Qed.

Lemma Qsquare_nonneg (q : Q) : (0 <= q ^ 2)%Q.
Proof. change (q ^ 2)%Q with (q * q)%Q. nra. Qed.

Lemma Qsquare_zero (q : Q) : (q ^ 2 == 0)%Q -> (q == 0)%Q.
Proof.
  change (q ^ 2)%Q with (q * q)%Q. intros H.
  destruct (Qmult_integral _ _ H); assumption.
Qed.

Lemma length_pos_Q (numbers : list Z) :
  numbers <> [] -> (0 < inject_Z (Z.of_nat (length numbers)))%Q.
Proof.
  intros H. change 0%Q with (inject_Z 0). rewrite <- Zlt_Qlt.
  destruct numbers; [contradiction|cbn [length]; lia].
Qed.

(** The variance of a list of equal numbers is zero. *)
Lemma calculateVariance_constant (numbers : list Z) :
  (forall x y, In x numbers -> In y numbers -> x = y) ->
  (calculateVariance numbers == 0)%Q.
Proof.
  intros Hall.
  destruct (list_eq_dec Z.eq_dec numbers []) as [->|Hne]; [reflexivity|].
  rewrite (calculateVariance_nonempty numbers Hne).
  pose proof (length_pos_Q numbers Hne) as Hn.
  set (n := inject_Z (Z.of_nat (length numbers))) in *.
  set (mean := (sumQ (map inject_Z numbers) / n)%Q).
  set (sq := map (fun num => ((inject_Z num - mean) ^ 2)%Q) numbers).
  assert (Hex : exists k, In k numbers).
  { clear -Hne. destruct numbers as [|k rest]; [contradiction|].
    exists k. now left. }
  destruct Hex as [k Hin].
  assert (Hk : forall x, In x numbers -> x = k).
  { intros x Hx. now apply Hall. }
  assert (Em : (mean == inject_Z k)%Q).
  { pose proof (sumQ_constant k numbers Hk) as Hs. fold n in Hs.
    unfold mean. rewrite Hs. field. lra. }
  assert (Ez : (sumQ sq == 0)%Q).
  { apply sumQ_all_zero. subst sq. apply Forall_forall. intros q Hq.
    apply in_map_iff in Hq. destruct Hq as (x & <- & Hx).
    rewrite (Hk x Hx), Em. ring. }
  rewrite Ez. field. lra.
Qed.

(** The population variance is never negative, and it is zero exactly
    when all the numbers are equal. *)
Theorem calculateVariance_zero_iff_constant (numbers : list Z) :
  (0 <= calculateVariance numbers)%Q /\
  ((calculateVariance numbers == 0)%Q <->
   forall x y, In x numbers -> In y numbers -> x = y).
Proof.
  destruct (list_eq_dec Z.eq_dec numbers []) as [->|Hne].
  - split; [discriminate|]. split; [intros _ x y []|reflexivity].
  - split; [|split; [|apply calculateVariance_constant]];
      rewrite (calculateVariance_nonempty numbers Hne);
      pose proof (length_pos_Q numbers Hne) as Hn;
      set (n := inject_Z (Z.of_nat (length numbers))) in *;
      set (mean := (sumQ (map inject_Z numbers) / n)%Q);
      set (sq := map (fun num => ((inject_Z num - mean) ^ 2)%Q) numbers);
      assert (Hsq : Forall (fun x => (0 <= x)%Q) sq)
        by (subst sq; apply Forall_forall; intros q Hq; apply in_map_iff in Hq;
            destruct Hq as (x & <- & _); apply Qsquare_nonneg);
      pose proof (sumQ_nonneg sq Hsq) as Hsum.
    + apply Qle_shift_div_l; [exact Hn|]. lra.
    + intros E.
      assert (Es : (sumQ sq == 0)%Q).
      { assert (H : (sumQ sq == sumQ sq / n * n)%Q) by (field; lra).
        rewrite H, E. ring. }
      pose proof (sumQ_zero sq Hsq Es) as Hz. rewrite Forall_forall in Hz.
      assert (Hmean : forall x, In x numbers -> (inject_Z x == mean)%Q).
      { intros x Hx.
        assert (Hq : ((inject_Z x - mean) ^ 2 == 0)%Q).
        { apply Hz. subst sq.
          apply (in_map (fun num => ((inject_Z num - mean) ^ 2)%Q)). exact Hx. }
        apply Qsquare_zero in Hq. lra. }
      intros x y Hx Hy. apply inject_Z_injective.
      rewrite (Hmean x Hx), (Hmean y Hy). reflexivity.
Qed.

(** A list of equal numbers passes the consistency test [variance < 4]. *)
Lemma constant_variance_consistent (numbers : list Z) :
  (forall x y, In x numbers -> In y numbers -> x = y) ->
  Qltb (calculateVariance numbers) 4 = true.
Proof.
  intros H. pose proof (calculateVariance_constant numbers H) as E.
  unfold Qltb.
  destruct (Qle_bool 4 (calculateVariance numbers)) eqn:B; [|reflexivity].
  apply Qle_bool_iff in B. rewrite E in B. lra.
Qed.

Lemma calculateMedian_nonempty (numbers : list Z) :
  numbers <> [] ->
  calculateMedian numbers
  = let sorted := sort_by (fun a => a) numbers in
    let mid := Nat.div (length sorted) 2 in
    if Nat.eqb (Nat.modulo (length sorted) 2) 0
    then (inject_Z (nth (mid - 1)%nat sorted 0%Z + nth mid sorted 0%Z) / 2)%Q
    else inject_Z (nth mid sorted 0).
Proof. destruct numbers; [contradiction|reflexivity]. Qed.

Lemma calculateMedian_bounds (numbers : list Z) (lo hi : Z) :
  numbers <> [] ->
  (forall x, In x numbers -> lo <= x <= hi) ->
  (inject_Z lo <= calculateMedian numbers <= inject_Z hi)%Q.
Proof.
  intros Hne Hb. rewrite (calculateMedian_nonempty numbers Hne). cbv zeta.
  set (sorted := sort_by (fun a => a) numbers).
  assert (Hlen : (0 < length sorted)%nat).
  { subst sorted. rewrite sort_by_length. destruct numbers; [contradiction|cbn; lia]. }
  assert (Hnth : forall i, (i < length sorted)%nat -> lo <= nth i sorted 0 <= hi).
  { intros i Hi. apply Hb. apply (sort_by_In (fun a => a)). now apply nth_In. }
  assert (Hmid : (length sorted / 2 < length sorted)%nat)
    by (apply Nat.div_lt; lia).
  destruct (Nat.eqb_spec (length sorted mod 2) 0) as [Even|Odd].
  - destruct (Hnth (length sorted / 2)%nat Hmid) as [A1 A2].
    destruct (Hnth (length sorted / 2 - 1)%nat ltac:(lia)) as [B1 B2].
    rewrite inject_Z_plus.
    rewrite Zle_Qle in A1, A2, B1, B2.
    split; apply Qle_shift_div_l || apply Qle_shift_div_r; lra.
  - destruct (Hnth (length sorted / 2)%nat Hmid) as [A1 A2].
    rewrite <- !Zle_Qle. split; assumption.
Qed.

(** The median of a non-empty list lies between any two bounds of its
    elements. *)
Theorem calculateMedian_between (numbers : list Z) (lo hi : Z) :
  numbers <> [] ->
  (forall x, In x numbers -> lo <= x <= hi) ->
  (inject_Z lo <= calculateMedian numbers <= inject_Z hi)%Q.
Proof.
  intros Hne Hb.
  destruct (calculateMedian_bounds numbers lo hi Hne Hb) as [Hlo Hhi].
  split; [exact Hlo|exact Hhi].
Qed.

Lemma calculateMedian_between_witness :
  (inject_Z 29 <= calculateMedian sampleLengths <= inject_Z 31)%Q.
Proof.
  apply (calculateMedian_between sampleLengths 29 31).
  - discriminate.
  - intros x Hx. cbn in Hx. lia.
Defined.

(** The median does not depend on the order of the numbers. *)
Theorem calculateMedian_permutation (numbers numbers' : list Z) :
  Permutation numbers numbers' ->
  calculateMedian numbers = calculateMedian numbers'.
Proof.
  intros P.
  destruct numbers as [|x l].
  - apply Permutation_nil in P. now subst.
  - destruct numbers' as [|x' l'].
    + apply Permutation_sym, Permutation_nil in P. discriminate.
    + rewrite !calculateMedian_nonempty by discriminate.
      rewrite (sort_by_perm_eq (fun a => a) (x :: l) (x' :: l')); auto.
Qed.

Lemma calculateMedian_permutation_witness :
  calculateMedian [31; 29; 30] = calculateMedian [29; 30; 31].
Proof.
  apply calculateMedian_permutation.
  apply (perm_trans (l' := [29; 31; 30])); [apply perm_swap|].
  apply perm_skip, perm_swap.
Defined.

(** On array indices the mode does not depend on the order of the
    numbers. *)
Theorem calculateMode_permutation (numbers numbers' : list Z) :
  Forall (fun x => 0 <= x < 4294967295) numbers ->
  Permutation numbers numbers' ->
  calculateMode numbers = calculateMode numbers'.
Proof.
  intros Hidx P.
  destruct (list_eq_dec Z.eq_dec numbers []) as [->|Hne].
  - apply Permutation_nil in P. now subst.
  - assert (Hne' : numbers' <> []).
    { intros ->. apply Permutation_sym, Permutation_nil in P. contradiction. }
    assert (Hidx' : Forall (fun x => 0 <= x < 4294967295) numbers').
    { rewrite Forall_forall in *. intros x Hx. apply Hidx.
      apply (Permutation_in _ (Permutation_sym P) Hx). }
    assert (Hocc : forall x, occurrences x numbers = occurrences x numbers').
    { intros x. unfold occurrences.
      apply (proj1 (Permutation_count_occ Z.eq_dec numbers numbers') P). }
    destruct (calculateMode_max numbers Hne) as (m & Em & _ & Hmax).
    destruct (calculateMode_max numbers' Hne') as (m' & Em' & _ & Hmax').
    rewrite Em, Em'. f_equal.
    assert (Eo : occurrences m numbers = occurrences m' numbers).
    { pose proof (Hmax m'). pose proof (Hmax' m). rewrite <- !Hocc in *. lia. }
    pose proof (calculateMode_smallest numbers m Hidx Em m' (eq_sym Eo)).
    pose proof (calculateMode_smallest numbers' m' Hidx' Em' m) as H'.
    rewrite <- !Hocc in H'. specialize (H' Eo). lia.
Qed.

Lemma calculateMode_permutation_witness :
  calculateMode [31; 30] = calculateMode [30; 31].
Proof.
  apply calculateMode_permutation.
  - repeat constructor; lia.
  - apply perm_swap.
Defined.

(** ** Consistency of the statement day *)

Lemma fold_max_spec (xs : list Z) :
  forall a, let M := fold_left Z.max xs a in
  a <= M /\ (forall x, In x xs -> x <= M) /\ (M = a \/ In M xs).
Proof.
  induction xs as [|x xs IH]; intros a; cbn [fold_left].
  - cbv zeta. split; [lia|]. split; [intros x []|now left].
  - destruct (IH (Z.max a x)) as (H1 & H2 & H3). cbv zeta in *.
    split; [lia|]. split.
    + intros y [<-|Hy]; [lia|exact (H2 y Hy)].
    + destruct H3 as [E|I]; [|right; now right].
      destruct (Z.max_spec a x) as [[_ Em]|[_ Em]].
      * right. left. rewrite E. now symmetry.
      * left. now rewrite E.
Qed.

Lemma fold_min_spec (xs : list Z) :
  forall a, let m := fold_left Z.min xs a in
  m <= a /\ (forall x, In x xs -> m <= x) /\ (m = a \/ In m xs).
Proof.
  induction xs as [|x xs IH]; intros a; cbn [fold_left].
  - cbv zeta. split; [lia|]. split; [intros x []|now left].
  - destruct (IH (Z.min a x)) as (H1 & H2 & H3). cbv zeta in *.
    split; [lia|]. split.
    + intros y [<-|Hy]; [lia|exact (H2 y Hy)].
    + destruct H3 as [E|I]; [|right; now right].
      destruct (Z.min_spec a x) as [[_ Em]|[_ Em]].
      * left. now rewrite E.
      * right. left. rewrite E. now symmetry.
Qed.

Lemma Math_max_of_spec (xs : list Z) (M : Z) :
  Math_max_of xs = Some M -> In M xs /\ forall x, In x xs -> x <= M.
Proof.
  destruct xs as [|a xs]; [discriminate|]. cbn [Math_max_of]. intros [= <-].
  destruct (fold_max_spec xs a) as (H1 & H2 & H3). cbv zeta in *. split.
  - destruct H3 as [->|I]; [now left|now right].
  - intros x [<-|Hx]; [exact H1|exact (H2 x Hx)].
Qed.

Lemma Math_min_of_spec (xs : list Z) (m : Z) :
  Math_min_of xs = Some m -> In m xs /\ forall x, In x xs -> m <= x.
Proof.
  destruct xs as [|a xs]; [discriminate|]. cbn [Math_min_of]. intros [= <-].
  destruct (fold_min_spec xs a) as (H1 & H2 & H3). cbv zeta in *. split.
  - destruct H3 as [->|I]; [now left|now right].
  - intros x [<-|Hx]; [exact H1|exact (H2 x Hx)].
Qed.

Lemma nodup_constant (x : Z) (l : list Z) :
  l <> [] -> (forall y, In y l -> y = x) -> nodup Z.eq_dec l = [x].
Proof.
  induction l as [|y l IH]; intros Hne H; [contradiction|].
  assert (y = x) by (apply H; now left). subst y. cbn [nodup].
  destruct l as [|z l].
  - destruct (in_dec Z.eq_dec x []) as [[]|_]. reflexivity.
  - assert (z = x) by (apply H; right; now left). subst z.
    destruct (in_dec Z.eq_dec x (x :: l)) as [_|N]; [|exfalso; apply N; now left].
    apply IH; [discriminate|]. intros y Hy. apply H. now right.
Qed.

Lemma nodup_single (l : list Z) :
  length (nodup Z.eq_dec l) = 1%nat <->
  l <> [] /\ forall x y, In x l -> In y l -> x = y.
Proof.
  split.
  - intros H. split; [intros ->; discriminate|].
    destruct (nodup Z.eq_dec l) as [|z [|? ?]] eqn:E; try discriminate.
    assert (Hz : forall x, In x l -> x = z).
    { intros x Hx. apply (nodup_In Z.eq_dec) in Hx. rewrite E in Hx.
      destruct Hx as [<-|[]]. reflexivity. }
    intros x y Hx Hy. now rewrite (Hz x Hx), (Hz y Hy).
  - intros [Hne H]. destruct l as [|x l]; [contradiction|].
    rewrite (nodup_constant x); [reflexivity|discriminate|].
    intros y Hy. apply H; [exact Hy|now left].
Qed.

(** Consistent statement days are at most 3 days apart. *)
Lemma checkStatementDayConsistency_spread (cycles : list HistoricalCycle) :
  checkStatementDayConsistency cycles = true ->
  forall a b, In a (statementDaysOf cycles) -> In b (statementDaysOf cycles) ->
              a - b <= 3.
Proof.
  unfold checkStatementDayConsistency. fold (statementDaysOf cycles).
  set (days := statementDaysOf cycles).
  destruct (Nat.eqb_spec (length (nodup Z.eq_dec days)) 1) as [One|NotOne].
  - apply nodup_single in One. destruct One as [_ Hall].
    intros _ a b Ha Hb. rewrite (Hall a b Ha Hb). lia.
  - destruct (Math_max_of days) as [maxDay|] eqn:EM; [|discriminate].
    destruct (Math_min_of days) as [minDay|] eqn:Em; [|discriminate].
    destruct (Math_max_of_spec days maxDay EM) as [_ HM].
    destruct (Math_min_of_spec days minDay Em) as [_ Hm].
    rewrite andb_true_iff, Z.leb_le. intros [Hs _] a b Ha Hb.
    specialize (HM a Ha). specialize (Hm b Hb). lia.
Qed.

(** The statement days of a history are consistent exactly when the
    history is not empty, no two days are more than 3 apart and either all
    days are the same or some day is the 28th or later. *)
Theorem checkStatementDayConsistency_iff (cycles : list HistoricalCycle) :
  checkStatementDayConsistency cycles = true <->
  cycles <> [] /\
  (forall a b, In a (statementDaysOf cycles) -> In b (statementDaysOf cycles) ->
               a - b <= 3) /\
  ((forall a b, In a (statementDaysOf cycles) -> In b (statementDaysOf cycles) ->
                a = b) \/
   exists d, In d (statementDaysOf cycles) /\ 28 <= d).
Proof.
  split.
  - intros Hc. pose proof (checkStatementDayConsistency_spread cycles Hc) as Hs.
    revert Hc. unfold checkStatementDayConsistency.
    fold (statementDaysOf cycles).
    destruct (Nat.eqb_spec (length (nodup Z.eq_dec (statementDaysOf cycles))) 1)
      as [One|NotOne].
    + apply nodup_single in One. destruct One as [Hne Hall]. intros _.
      split; [intros ->; now apply Hne|]. split; [exact Hs|now left].
    + destruct (Math_max_of (statementDaysOf cycles)) as [maxDay|] eqn:EM;
        [|discriminate].
      destruct (Math_min_of (statementDaysOf cycles)); [|discriminate].
      destruct (Math_max_of_spec _ maxDay EM) as [IM _].
      rewrite andb_true_iff, Z.leb_le, Z.leb_le. intros [_ H28].
      split; [intros ->; destruct IM|]. split; [exact Hs|].
      right. exists maxDay. split; assumption.
  - intros (Hne & Hs & Hor). unfold checkStatementDayConsistency.
    fold (statementDaysOf cycles).
    assert (Hdays : statementDaysOf cycles <> []).
    { unfold statementDaysOf. destruct cycles; [contradiction|discriminate]. }
    destruct (Nat.eqb_spec (length (nodup Z.eq_dec (statementDaysOf cycles))) 1)
      as [One|NotOne]; [reflexivity|].
    destruct (Math_max_of (statementDaysOf cycles)) as [maxDay|] eqn:EM;
      [|destruct (statementDaysOf cycles); [contradiction|discriminate]].
    destruct (Math_min_of (statementDaysOf cycles)) as [minDay|] eqn:Em;
      [|destruct (statementDaysOf cycles); [contradiction|discriminate]].
    destruct (Math_max_of_spec _ maxDay EM) as [IM HM].
    destruct (Math_min_of_spec _ minDay Em) as [Im Hm].
    rewrite andb_true_iff, Z.leb_le, Z.leb_le.
    destruct Hor as [Hall|(d & Hd & H28)].
    + exfalso. apply NotOne. apply nodup_single. split; assumption.
    + split; [exact (Hs maxDay minDay IM Im)|]. specialize (HM d Hd). lia.
Qed.

(** ** The result of the analysis *)

Lemma analyze_statementDay (history : list HistoricalCycle) :
  (2 <= length history)%nat ->
  statementDayOfMonth (pattern (analyzeBillingCyclePattern history))
  = if isConsistentDayOf history
    then calculateMode (statementDaysOf (sort_by statementDate history))
    else None.
Proof.
  intros H. unfold analyzeBillingCyclePattern.
  destruct (Nat.ltb_spec (length history) 2); [lia|reflexivity].
Qed.

Lemma analyze_quality (history : list HistoricalCycle) :
  (2 <= length history)%nat ->
  quality (analyzeBillingCyclePattern history)
  = let c := confidenceScore (length history) (isConsistentLengthOf history)
               (isConsistentDayOf history) (isConsistentOffsetOf history) in
    if Qle_bool 0.8 c && (6 <=? length history)%nat then high
    else if Qle_bool 0.6 c && (3 <=? length history)%nat then medium
    else low.
Proof.
  intros H. unfold analyzeBillingCyclePattern.
  destruct (Nat.ltb_spec (length history) 2); [lia|reflexivity].
Qed.

Lemma analyze_dueDateOffset (history : list HistoricalCycle) :
  (2 <= length history)%nat ->
  dueDateOffset (pattern (analyzeBillingCyclePattern history))
  = Math_round
      (calculateMedian
         (map (fun cycle => differenceInDays (dueDate cycle) (statementDate cycle))
              (sort_by statementDate history))).
Proof.
  intros H. unfold analyzeBillingCyclePattern.
  destruct (Nat.ltb_spec (length history) 2); [lia|reflexivity].
Qed.

Lemma statementDaysOf_sorted_In (history : list HistoricalCycle) (d : Z) :
  In d (statementDaysOf (sort_by statementDate history))
  <-> In d (statementDaysOf history).
Proof.
  unfold statementDaysOf. rewrite !in_map_iff.
  split; intros (c & E & Hc); exists c; (split; [exact E|]);
    now apply (sort_by_In statementDate).
Qed.

Lemma getDate_range (t : Z) : 1 <= getDate t <= 31.
Proof.
  unfold getDate. destruct (date_fields t) as (_ & Hd & _).
  pose proof (days_in_month_bounds (YearFromTime t) (MonthFromTime t + 1)). lia.
Qed.

(** The statement day of the detected pattern, when there is one, is the
    day of the month of one of the statements, from 1 to 31, occurring at
    least as often as any other and at most 3 days away from each of
    them; there is none exactly when the history has fewer than 2 cycles
    or its days are not consistent. *)
Theorem analyze_statementDayOfMonth (history : list HistoricalCycle) :
  match statementDayOfMonth (pattern (analyzeBillingCyclePattern history)) with
  | Some day =>
      (2 <= length history)%nat /\
      isConsistentDayOf history = true /\
      In day (statementDaysOf history) /\
      1 <= day <= 31 /\
      forall d, In d (statementDaysOf history) ->
        (occurrences d (statementDaysOf history)
         <= occurrences day (statementDaysOf history))%nat /\
        Z.abs (d - day) <= 3
  | None => (length history < 2)%nat \/ isConsistentDayOf history = false
  end.
Proof.
  destruct (Nat.lt_ge_cases (length history) 2) as [Hlt|Hge].
  - rewrite (analyze_insufficient history Hlt). cbn. now left.
  - rewrite (analyze_statementDay history Hge).
    destruct (isConsistentDayOf history) eqn:Ec; [|now right].
    set (days := statementDaysOf (sort_by statementDate history)).
    assert (Hne : days <> []).
    { subst days. unfold statementDaysOf. intros E.
      apply (f_equal (@length Z)) in E.
      rewrite length_map, sort_by_length in E. cbn in E. lia. }
    destruct (calculateMode_max days Hne) as (m & Em & Hin & Hmax).
    rewrite Em. split; [exact Hge|]. split; [reflexivity|].
    assert (Hin' : In m (statementDaysOf history))
      by now apply statementDaysOf_sorted_In.
    split; [exact Hin'|]. split.
    + unfold statementDaysOf in Hin'. apply in_map_iff in Hin'.
      destruct Hin' as (c & <- & _). apply getDate_range.
    + intros d Hd. split.
      * assert (P : Permutation days (statementDaysOf history)).
        { subst days. unfold statementDaysOf.
          apply Permutation_map, sort_by_perm. }
        unfold occurrences.
        rewrite <- !(proj1 (Permutation_count_occ Z.eq_dec _ _) P).
        apply Hmax.
      * unfold isConsistentDayOf in Ec.
        pose proof (checkStatementDayConsistency_spread _ Ec) as Hs.
        fold days in Hs.
        apply statementDaysOf_sorted_In in Hd. fold days in Hd.
        pose proof (Hs d m Hd Hin). pose proof (Hs m d Hin Hd). lia.
Qed.

Lemma Math_min_le_r (a b : Q) : (Math_min a b <= b)%Q.
Proof.
  unfold Math_min. destruct (Qle_bool a b) eqn:E.
  - now apply Qle_bool_iff.
  - apply Qle_refl.
Qed.

(** The confidence of the detected pattern is between 0.3 and 1, and it is
    at least 0.5 exactly when the history has at least 2 cycles. *)
Theorem analyze_confidence_range (history : list HistoricalCycle) :
  (0.3 <= confidence (pattern (analyzeBillingCyclePattern history)) <= 1)%Q /\
  ((2 <= length history)%nat <->
   (0.5 <= confidence (pattern (analyzeBillingCyclePattern history)))%Q).
Proof.
  destruct (Nat.lt_ge_cases (length history) 2) as [Hlt|Hge].
  - rewrite (analyze_insufficient history Hlt). cbn [pattern defaultPattern confidence].
    split; [split; discriminate|]. split; [lia|]. intros H. exfalso. revert H.
    unfold Qle. cbn. lia.
  - rewrite (analyze_confidence history Hge).
    pose proof (confidenceScore_at_least_half (length history)
                  (isConsistentLengthOf history) (isConsistentDayOf history)
                  (isConsistentOffsetOf history)) as Hhalf.
    split; [split|split; [intros _; exact Hhalf|intros _; exact Hge]].
    + eapply Qle_trans; [|exact Hhalf]. discriminate.
    + unfold confidenceScore. eapply Qle_trans; [apply Math_min_le_r|]. lra.
Qed.

(** The quality is [low] exactly when the history has fewer than 3 cycles,
    and it is [high] only with at least 6 cycles of which the lengths or
    the statement days are consistent. *)
Theorem analyze_quality_cycles (history : list HistoricalCycle) :
  (quality (analyzeBillingCyclePattern history) = low
   <-> (length history < 3)%nat) /\
  (quality (analyzeBillingCyclePattern history) = high ->
   (6 <= length history)%nat /\
   (isConsistentLengthOf history = true \/ isConsistentDayOf history = true)).
Proof.
  destruct (Nat.lt_ge_cases (length history) 2) as [Hlt|Hge].
  - rewrite (analyze_insufficient history Hlt). cbn [quality].
    split; [split; [lia|reflexivity]|discriminate].
  - rewrite (analyze_quality history Hge). cbv zeta. unfold confidenceScore.
    destruct (Nat.leb_spec 6 (length history));
      destruct (Nat.leb_spec 3 (length history)); try lia;
      destruct (isConsistentLengthOf history), (isConsistentDayOf history),
        (isConsistentOffsetOf history);
      match goal with
      | |- (?q = low <-> _) /\ _ =>
          let v := eval vm_compute in q in change q with v
      end;
      (split;
       [split; [intros E; try discriminate E; lia
               |intros L; try reflexivity; lia]
       |intros E; first [discriminate E|split; [lia|auto]]]).
Qed.

(** ** The typical cycle length *)

Lemma cycleLengthsOf_sorted_nonneg (l : list HistoricalCycle) :
  StronglySorted (fun a b => statementDate a <= statementDate b) l ->
  Forall (fun d => 0 <= d) (cycleLengthsOf l).
Proof.
  induction l as [|a l IH]; intros Hs; [constructor|].
  destruct l as [|b l]; [constructor|].
  change (cycleLengthsOf (a :: b :: l))
    with (differenceInDays (statementDate b) (statementDate a)
          :: cycleLengthsOf (b :: l)).
  inversion Hs as [|? ? Hs' Hab]; subst.
  constructor; [|now apply IH].
  inversion Hab as [|? ? Hle _]; subst.
  now destruct (differenceInDays_nonneg _ _ Hle).
Qed.

(** The typical cycle length of the detected pattern is never negative,
    and for a history of at least 2 cycles it lies between any two bounds
    of the day differences between consecutive statements. *)
Theorem analyze_typicalCycleLength_range (history : list HistoricalCycle) :
  (0 <= typicalCycleLength (pattern (analyzeBillingCyclePattern history)))%Q /\
  ((2 <= length history)%nat ->
   forall lo hi,
     (forall d, In d (cycleLengthsOf (sort_by statementDate history)) ->
                lo <= d <= hi) ->
     (inject_Z lo
      <= typicalCycleLength (pattern (analyzeBillingCyclePattern history))
      <= inject_Z hi)%Q).
Proof.
  assert (Range : (2 <= length history)%nat ->
          forall lo hi,
            (forall d, In d (cycleLengthsOf (sort_by statementDate history)) ->
                       lo <= d <= hi) ->
            (inject_Z lo
             <= typicalCycleLength (pattern (analyzeBillingCyclePattern history))
             <= inject_Z hi)%Q).
  { intros Hge lo hi Hb. rewrite (analyze_typical history Hge). cbv zeta.
    set (diffs := cycleLengthsOf (sort_by statementDate history)) in *.
    assert (Hne : diffs <> []).
    { intros E. apply (f_equal (@length Z)) in E. subst diffs.
      rewrite cycleLengthsOf_length, sort_by_length in E. cbn in E. lia. }
    pose proof (calculateMedian_bounds diffs lo hi Hne Hb) as Hmed.
    destruct (calculateMode_max diffs Hne) as (m & Em & Hin & _).
    rewrite Em. destruct (m =? 0); [exact Hmed|].
    rewrite <- !Zle_Qle. now apply Hb. }
  split; [|exact Range].
  destruct (Nat.lt_ge_cases (length history) 2) as [Hlt|Hge].
  - rewrite (analyze_insufficient history Hlt). discriminate.
  - set (diffs := cycleLengthsOf (sort_by statementDate history)).
    pose proof (cycleLengthsOf_sorted_nonneg _ (sort_by_sorted statementDate history))
      as Hnn.
    fold diffs in Hnn. rewrite Forall_forall in Hnn.
    destruct (Math_max_of diffs) as [M|] eqn:EM.
    + destruct (Math_max_of_spec diffs M EM) as [_ HM].
      apply (Range Hge 0 M). intros d Hd. fold diffs in Hd.
      split; [now apply Hnn|now apply HM].
    + assert (diffs = []) by (destruct diffs; [reflexivity|discriminate]).
      apply (Range Hge 0 0). intros d Hd. fold diffs in Hd.
      rewrite H in Hd. destruct Hd.
Qed.

(** ** Order of the input *)

(** A history whose statement dates are pairwise distinct is analysed the
    same way in whatever order its cycles are given. *)
Theorem analyze_order_independent (A B : list HistoricalCycle) :
  Permutation A B ->
  NoDup (map statementDate A) ->
  analyzeBillingCyclePattern A = analyzeBillingCyclePattern B.
Proof.
  intros P Hnd.
  assert (Hlen : length A = length B) by now apply Permutation_length.
  assert (Hsort : sort_by statementDate A = sort_by statementDate B).
  { apply sort_by_perm_eq; [|exact P]. now apply NoDup_keys_inj. }
  unfold analyzeBillingCyclePattern. rewrite Hlen, Hsort. reflexivity.
Qed.

Lemma analyze_order_independent_witness :
  analyzeBillingCyclePattern distinctLengthsHistory
  = analyzeBillingCyclePattern (rev distinctLengthsHistory).
Proof.
  apply analyze_order_independent.
  - apply Permutation_rev.
  - assert (E : map statementDate distinctLengthsHistory
                = [ymd 2023 1 1; ymd 2023 1 30; ymd 2023 3 1; ymd 2023 4 1])
      by reflexivity.
    rewrite E. vm_compute.
    repeat constructor; cbn; intuition discriminate.
Defined.

(** ** Analysis of a regular history *)

Lemma regular_statementDate (start len offset : Z) (count : nat)
    (c : HistoricalCycle) :
  In c (regularHistory start len offset count) ->
  exists k, (k < count)%nat /\
    statementDate c = start + Z.of_nat k * len * msPerDay /\
    dueDate c = statementDate c + offset * msPerDay.
Proof.
  unfold regularHistory. intros H. apply in_map_iff in H.
  destruct H as (k & <- & Hk). apply in_seq in Hk. exists k.
  cbn [statementDate dueDate]. rewrite !addDays_Z. repeat split; lia.
Qed.

Lemma regular_sorted (start len offset : Z) (count : nat) :
  0 <= len ->
  StronglySorted (fun a b => statementDate a <= statementDate b)
                 (regularHistory start len offset count).
Proof.
  intros Hlen. unfold regularHistory. generalize 0%nat as a.
  induction count as [|n IH]; intros a; cbn [seq map]; constructor.
  - apply IH.
  - apply Forall_forall. intros c Hc. apply in_map_iff in Hc.
    destruct Hc as (k & <- & Hk). apply in_seq in Hk.
    cbn [statementDate]. rewrite !addDays_Z. pose proof msPerDay_pos. nia.
Qed.

Lemma regular_cycleLengths (start len offset : Z) (count : nat) :
  forall d, In d (cycleLengthsOf (regularHistory start len offset count)) ->
            d = len.
Proof.
  unfold regularHistory. generalize 0%nat as a.
  induction count as [|n IH]; intros a d; cbn [seq map]; [intros []|].
  destruct n as [|n]; [intros []|].
  cbn [seq map] in *.
  change (cycleLengthsOf (?x :: ?y :: ?l))
    with (differenceInDays (statementDate y) (statementDate x)
          :: cycleLengthsOf (y :: l)).
  intros [<-|Hd].
  - cbn [statementDate]. rewrite differenceInDays_quot, !addDays_Z.
    replace (start + Z.of_nat (S a) * len * msPerDay
             - (start + Z.of_nat a * len * msPerDay))
      with (len * msPerDay) by lia.
    apply Z.quot_mul. unfold msPerDay. lia.
  - apply (IH (S a)). exact Hd.
Qed.

Lemma regular_offsets (start len offset : Z) (count : nat) :
  forall d,
    In d (map (fun cycle => differenceInDays (dueDate cycle) (statementDate cycle))
              (regularHistory start len offset count)) ->
    d = offset.
Proof.
  intros d H. apply in_map_iff in H. destruct H as (c & <- & Hc).
  destruct (regular_statementDate _ _ _ _ _ Hc) as (k & _ & _ & Ed).
  rewrite Ed, differenceInDays_quot.
  replace (statementDate c + offset * msPerDay - statementDate c)
    with (offset * msPerDay) by ring.
  apply Z.quot_mul. unfold msPerDay. lia.
Qed.

Lemma calculateMedian_constant (k : Z) (numbers : list Z) :
  numbers <> [] -> (forall x, In x numbers -> x = k) ->
  (calculateMedian numbers == inject_Z k)%Q.
Proof.
  intros Hne H.
  destruct (calculateMedian_bounds numbers k k Hne) as [H1 H2].
  - intros x Hx. rewrite (H x Hx). lia.
  - now apply Qle_antisym.
Qed.

Lemma Math_round_Z (q : Q) (k : Z) : (q == inject_Z k)%Q -> Math_round q = k.
Proof.
  intros E. unfold Math_round. rewrite E, Qfloor_plus_Z.
  change (Qfloor (1 # 2)) with 0. ring.
Qed.

(** A history of at least 2 statements taken every [len > 0] days, each
    due [offset] days later, is analysed back to that schedule: the
    typical cycle length is [len], the due date offset is [offset], the
    length and offset tests pass and the confidence is at least 0.7. *)
Theorem analyze_regularHistory (start len offset : Z) (count : nat) :
  0 < len -> (2 <= count)%nat ->
  let history := regularHistory start len offset count in
  let detected := pattern (analyzeBillingCyclePattern history) in
  typicalCycleLength detected = inject_Z len /\
  dueDateOffset detected = offset /\
  isConsistentLengthOf history = true /\
  isConsistentOffsetOf history = true /\
  (0.7 <= confidence detected)%Q.
Proof.
  intros Hlen Hcount history detected. subst detected.
  assert (Hn : length history = count).
  { subst history. unfold regularHistory. now rewrite length_map, length_seq. }
  assert (Hge : (2 <= length history)%nat) by lia.
  assert (Hsort : sort_by statementDate history = history).
  { apply sort_by_sorted_id. apply regular_sorted. lia. }
  assert (Hdiffs : forall d, In d (cycleLengthsOf history) -> d = len)
    by apply regular_cycleLengths.
  assert (Hne : cycleLengthsOf history <> []).
  { intros E. apply (f_equal (@length Z)) in E.
    rewrite cycleLengthsOf_length in E. cbn in E. lia. }
  assert (Hoffs : forall d,
            In d (map (fun cycle => differenceInDays (dueDate cycle)
                                                     (statementDate cycle))
                      history) -> d = offset)
    by apply regular_offsets.
  assert (HL : isConsistentLengthOf history = true).
  { unfold isConsistentLengthOf. rewrite Hsort.
    apply constant_variance_consistent.
    intros x y Hx Hy. now rewrite (Hdiffs x Hx), (Hdiffs y Hy). }
  assert (HO : isConsistentOffsetOf history = true).
  { unfold isConsistentOffsetOf. rewrite Hsort.
    apply constant_variance_consistent.
    intros x y Hx Hy. now rewrite (Hoffs x Hx), (Hoffs y Hy). }
  split; [|split; [|split; [exact HL|split; [exact HO|]]]].
  - rewrite (analyze_typical history Hge). cbv zeta. rewrite Hsort.
    destruct (calculateMode_max _ Hne) as (m & Em & Hin & _).
    rewrite Em. rewrite (Hdiffs m Hin).
    destruct (Z.eqb_spec len 0); [lia|reflexivity].
  - rewrite (analyze_dueDateOffset history Hge), Hsort.
    apply Math_round_Z. apply calculateMedian_constant; [|exact Hoffs].
    intros E. apply (f_equal (@length Z)) in E.
    rewrite length_map in E. cbn in E. lia.
  - rewrite (analyze_confidence history Hge), HL, HO.
    unfold confidenceScore.
    destruct (6 <=? length history)%nat; destruct (3 <=? length history)%nat;
      destruct (isConsistentDayOf history); vm_compute; discriminate.
Qed.

Lemma analyze_regularHistory_witness :
  typicalCycleLength (pattern (analyzeBillingCyclePattern longerHistory))
  = inject_Z 30 /\
  dueDateOffset (pattern (analyzeBillingCyclePattern longerHistory)) = 21 /\
  isConsistentLengthOf longerHistory = true /\
  isConsistentOffsetOf longerHistory = true /\
  (0.7 <= confidence (pattern (analyzeBillingCyclePattern longerHistory)))%Q.
Proof.
  apply (analyze_regularHistory (ymd 2023 3 1) 30 21 4); lia.
Defined.

(** ** Shape of the projections *)

Lemma Day_startOfDay (t : Z) : Day (startOfDay t) = Day t.
Proof.
  rewrite startOfDay_time. unfold Day. apply Z.div_mul. unfold msPerDay. lia.
Qed.

Lemma TimeWithinDay_startOfDay (t : Z) : TimeWithinDay (startOfDay t) = 0.
Proof.
  rewrite startOfDay_time. unfold TimeWithinDay. apply Z.mod_mul.
  unfold msPerDay. lia.
Qed.

Lemma TimeWithinDay_shift1 (t : Z) :
  TimeWithinDay (t + msPerDay) = TimeWithinDay t.
Proof.
  replace (t + msPerDay) with (t + 1 * msPerDay) by ring.
  apply TimeWithinDay_shift.
Qed.

Lemma startOfDay_fields (t : Z) :
  YearFromTime (startOfDay t) = YearFromTime t /\
  MonthFromTime (startOfDay t) = MonthFromTime t /\
  DateFromTime (startOfDay t) = DateFromTime t.
Proof.
  unfold YearFromTime, MonthFromTime, DateFromTime.
  now rewrite Day_startOfDay.
Qed.

Lemma projectLoop_nth (pattern : BillingCyclePattern) (monthsAhead : Z) :
  forall fuel i s k p,
  nth_error (projectLoop pattern monthsAhead fuel i s) k = Some p ->
  isProjected p = true /\
  cycleStartDate p
  = startOfDay (Nat.iter k (nextStatementDateOf pattern) s) + msPerDay /\
  cycleEndDate p = startOfDay (Nat.iter (S k) (nextStatementDateOf pattern) s) /\
  paymentDueDate p = cycleEndDate p + dueDateOffset pattern * msPerDay /\
  projConfidence p
  = (confidence pattern * (1 - inject_Z (i + Z.of_nat k) * 0.05))%Q.
Proof.
  induction fuel as [|f IH]; intros i s k p; cbn [projectLoop];
    [destruct k; discriminate|].
  destruct (i <? monthsAhead); [|destruct k; discriminate].
  destruct k as [|k]; cbn [nth_error].
  - intros [= <-].
    cbn [isProjected cycleStartDate cycleEndDate paymentDueDate projConfidence
         Nat.iter nat_rect].
    change 1%Q with (inject_Z 1). rewrite !addDays_Z, !startOfDay_shift.
    rewrite Z.add_0_r. repeat split; ring.
  - intros H. destruct (IH _ _ _ _ H) as (E1 & E2 & E3 & E4 & E5).
    rewrite <- !Nat.iter_succ_r in E2, E3.
    repeat split; try assumption.
    replace (i + Z.of_nat (S k)) with (i + 1 + Z.of_nat k) by lia. exact E5.
Qed.

(** For every last known cycle, pattern and whole number [monthsAhead],
    [projectFutureCycles] returns [monthsAhead] projections (none when
    [monthsAhead] is negative).  The first one starts at midnight of the
    day after the last known statement.  Every projection is marked as
    projected, its three dates are at midnight, its due date is
    [dueDateOffset] days after its end, and the [k]-th one (from 0) has
    confidence [confidence x (1 - k x 0.05)]. *)
Theorem projectFutureCycles_shape (lastKnownCycle : HistoricalCycle)
    (pattern : BillingCyclePattern) (monthsAhead : Z) :
  let projections := projectFutureCycles lastKnownCycle pattern monthsAhead in
  length projections = Z.to_nat monthsAhead /\
  (forall first, nth_error projections 0 = Some first ->
     cycleStartDate first
     = startOfDay (statementDate lastKnownCycle) + msPerDay) /\
  forall k p, nth_error projections k = Some p ->
    isProjected p = true /\
    TimeWithinDay (cycleStartDate p) = 0 /\
    TimeWithinDay (cycleEndDate p) = 0 /\
    TimeWithinDay (paymentDueDate p) = 0 /\
    paymentDueDate p = cycleEndDate p + dueDateOffset pattern * msPerDay /\
    projConfidence p
    = (confidence pattern * (1 - inject_Z (Z.of_nat k) * 0.05))%Q.
Proof.
  cbv zeta. split; [apply projectFutureCycles_length|].
  unfold projectFutureCycles. split.
  - intros first H. now destruct (projectLoop_nth _ _ _ _ _ _ _ H) as (_ & E & _).
  - intros k p H.
    destruct (projectLoop_nth _ _ _ _ _ _ _ H) as (E1 & E2 & E3 & E4 & E5).
    split; [exact E1|].
    split; [rewrite E2, TimeWithinDay_shift1; apply TimeWithinDay_startOfDay|].
    split; [rewrite E3; apply TimeWithinDay_startOfDay|].
    split; [rewrite E4, TimeWithinDay_shift, E3; apply TimeWithinDay_startOfDay|].
    split; [exact E4|exact E5].
Qed.

(** ** Projections on a statement day *)

Lemma monthIndex_next (pattern : BillingCyclePattern) (day s : Z) :
  statementDayOfMonth pattern = Some day -> 1 <= day ->
  let r := nextStatementDateOf pattern s in
  monthIndex r = monthIndex s + 1 /\
  getDate r
  = Z.min day (Civil.days_in_month (getFullYear r) (getMonth r + 1)).
Proof.
  intros Hday H1 r.
  destruct (nextStatementDateOf_monthly pattern day s Hday H1)
    as (Ey & Em & Ed & _).
  fold r in Ey, Em, Ed. unfold monthIndex, getFullYear, getMonth, getDate.
  rewrite Ed, Ey, Em. split; [|reflexivity].
  destruct (date_fields s) as (Hm & _).
  pose proof (Z.div_mod (MonthFromTime s + 1) 12 ltac:(lia)). lia.
Qed.

Lemma monthIndex_iter (pattern : BillingCyclePattern) (day : Z) :
  statementDayOfMonth pattern = Some day -> 1 <= day ->
  forall k s,
  let r := Nat.iter (S k) (nextStatementDateOf pattern) s in
  monthIndex r = monthIndex s + Z.of_nat k + 1 /\
  getDate r
  = Z.min day (Civil.days_in_month (getFullYear r) (getMonth r + 1)).
Proof.
  intros Hday H1. induction k as [|k IH]; intros s r; subst r.
  - cbn [Nat.iter nat_rect]. rewrite Z.add_0_r.
    apply (monthIndex_next pattern day s Hday H1).
  - change (Nat.iter (S (S k)) (nextStatementDateOf pattern) s)
      with (nextStatementDateOf pattern
              (Nat.iter (S k) (nextStatementDateOf pattern) s)).
    destruct (monthIndex_next pattern day
                (Nat.iter (S k) (nextStatementDateOf pattern) s) Hday H1)
      as (E1 & E2).
    destruct (IH s) as (E3 & _).
    split; [rewrite E1, E3; lia|exact E2].
Qed.

(** With a statement day of at least 1, the projections close in the
    consecutive calendar months after the month of the last known
    statement, one per month, each on the statement day or, in a month
    that is too short, on the last day of that month. *)
Theorem projectFutureCycles_monthly (lastKnownCycle : HistoricalCycle)
    (pattern : BillingCyclePattern) (monthsAhead day : Z) :
  statementDayOfMonth pattern = Some day -> 1 <= day ->
  forall k p,
    nth_error (projectFutureCycles lastKnownCycle pattern monthsAhead) k
    = Some p ->
    monthIndex (cycleEndDate p)
    = monthIndex (statementDate lastKnownCycle) + Z.of_nat k + 1 /\
    getDate (cycleEndDate p)
    = Z.min day (Civil.days_in_month (getFullYear (cycleEndDate p))
                                     (getMonth (cycleEndDate p) + 1)).
Proof.
  intros Hday H1 k p H. unfold projectFutureCycles in H.
  destruct (projectLoop_nth _ _ _ _ _ _ _ H) as (_ & _ & E & _).
  destruct (monthIndex_iter pattern day Hday H1 k (statementDate lastKnownCycle))
    as (E1 & E2).
  cbv zeta in E1, E2. rewrite E.
  unfold monthIndex, getFullYear, getMonth, getDate in *.
  destruct (startOfDay_fields
              (Nat.iter (S k) (nextStatementDateOf pattern)
                        (statementDate lastKnownCycle))) as (-> & -> & ->).
  split; assumption.
Qed.

Lemma projectFutureCycles_monthly_witness :
  exists p,
    nth_error (projectFutureCycles exampleCycle monthlyPattern 6) 2 = Some p /\
    monthIndex (cycleEndDate p)
    = monthIndex (statementDate exampleCycle) + Z.of_nat 2 + 1 /\
    getDate (cycleEndDate p)
    = Z.min 15 (Civil.days_in_month (getFullYear (cycleEndDate p))
                                    (getMonth (cycleEndDate p) + 1)).
Proof.
  eexists. split; [vm_compute; reflexivity|].
  apply (projectFutureCycles_monthly exampleCycle monthlyPattern 6 15).
  - reflexivity.
  - lia.
  - vm_compute. reflexivity.
Defined.

(** ** Assignment to projected cycles *)

Lemma projections_ordered (lastKnownCycle : HistoricalCycle)
    (pattern : BillingCyclePattern) (monthsAhead : Z) :
  (2 <= typicalCycleLength pattern)%Q ->
  1 <= dueDateOffset pattern ->
  (forall day, statementDayOfMonth pattern = Some day ->
     1 <= day /\
     addDays (statementDate lastKnownCycle) 1
     < nextStatementDateOf pattern (statementDate lastKnownCycle)) ->
  let ps := projectFutureCycles lastKnownCycle pattern monthsAhead in
  Forall (fun p => cycleStartDate p < cycleEndDate p < paymentDueDate p) ps /\
  forall k a b, nth_error ps k = Some a -> nth_error ps (S k) = Some b ->
                cycleStartDate b = cycleEndDate a + msPerDay.
Proof.
  intros Hlen Hoff Hday. unfold projectFutureCycles.
  destruct (statementDayOfMonth pattern) as [day|] eqn:Esdm.
  - destruct (Hday day eq_refl) as [H1 Hfirst].
    apply projectLoop_ordered; [exact Hoff| |].
    + intros s. exact (monthly_gap pattern day s Esdm H1).
    + apply later_day.
      * now destruct (nextStatementDateOf_monthly pattern day
                        (statementDate lastKnownCycle) Esdm H1)
          as (_ & _ & _ & Et & _).
      * change 1%Q with (inject_Z 1) in Hfirst. rewrite addDays_Z in Hfirst. lia.
  - apply projectLoop_ordered; [exact Hoff| |].
    + intros s. now apply fixed_gap.
    + now apply fixed_gap.
Qed.

Section Cycles.
Variable ps : list BillingCycleProjection.
Hypothesis wellFormed :
  Forall (fun p => cycleStartDate p < cycleEndDate p < paymentDueDate p) ps.
Hypothesis contiguous :
  forall k a b, nth_error ps k = Some a -> nth_error ps (S k) = Some b ->
                cycleStartDate b = cycleEndDate a + msPerDay.

Lemma cycle_start_before_end (k : nat) (a : BillingCycleProjection) :
  nth_error ps k = Some a -> cycleStartDate a < cycleEndDate a.
Proof.
  intros H. apply nth_error_In in H.
  rewrite Forall_forall in wellFormed. now destruct (wellFormed a H).
Qed.

(** A later cycle starts at least a day after an earlier one ended. *)
Lemma cycles_apart (i j : nat) (a b : BillingCycleProjection) :
  (i < j)%nat -> nth_error ps i = Some a -> nth_error ps j = Some b ->
  cycleEndDate a + msPerDay <= cycleStartDate b.
Proof.
  intros Hij Ha. revert b. induction j as [|j IH]; intros b Hb; [lia|].
  destruct (Nat.eq_dec i j) as [<-|Hne].
  - rewrite (contiguous i a b Ha Hb). lia.
  - destruct (nth_error ps j) as [c|] eqn:Ec.
    + assert (Hc : cycleEndDate a + msPerDay <= cycleStartDate c)
        by (apply IH; [lia|reflexivity]).
      pose proof (cycle_start_before_end j c Ec).
      rewrite (contiguous j c b Ec Hb). pose proof msPerDay_pos. lia.
    + apply nth_error_None in Ec.
      assert (nth_error ps (S j) = None) by (apply nth_error_None; lia).
      congruence.
Qed.

Lemma assign_at (t : Z) :
  forall (l : list BillingCycleProjection) k q,
  nth_error l k = Some q -> inCycle t q ->
  (forall j a, (j < k)%nat -> nth_error l j = Some a -> ~ inCycle t a) ->
  assignTransactionToCycle t l = Some q.
Proof.
  unfold inCycle.
  induction l as [|c l IH]; intros k q Hq Hin Hbefore;
    [destruct k; discriminate|].
  cbn [assignTransactionToCycle]. destruct k as [|k]; cbn [nth_error] in Hq.
  - injection Hq as ->.
    destruct (Z.leb_spec (cycleStartDate q) t);
      destruct (Z.leb_spec t (cycleEndDate q)); try lia. reflexivity.
  - assert (Hc : ~ (cycleStartDate c <= t <= cycleEndDate c))
      by (apply (Hbefore 0%nat c); [lia|reflexivity]).
    destruct (Z.leb_spec (cycleStartDate c) t);
      destruct (Z.leb_spec t (cycleEndDate c)); try lia; cbn [andb];
      apply (IH k q Hq Hin); intros j a Hj Ha;
      apply (Hbefore (S j) a); [lia|exact Ha|lia|exact Ha|lia|exact Ha].
Qed.

Lemma assign_none (t : Z) :
  forall l : list BillingCycleProjection,
  (forall a, In a l -> ~ inCycle t a) ->
  assignTransactionToCycle t l = None.
Proof.
  unfold inCycle. induction l as [|c l IH]; intros H; [reflexivity|].
  cbn [assignTransactionToCycle].
  assert (Hc : ~ (cycleStartDate c <= t <= cycleEndDate c))
    by (apply H; now left).
  destruct (Z.leb_spec (cycleStartDate c) t);
    destruct (Z.leb_spec t (cycleEndDate c)); try lia; cbn [andb];
    apply IH; intros a Ha; apply H; now right.
Qed.

Lemma ordered_assign_unique (t : Z) (k : nat) (q : BillingCycleProjection) :
  nth_error ps k = Some q -> inCycle t q ->
  assignTransactionToCycle t ps = Some q.
Proof.
  intros Hq Hin. apply (assign_at t ps k q Hq Hin).
  intros j a Hj Ha [_ Hend].
  pose proof (cycles_apart j k a q Hj Ha Hq). destruct Hin as [Hstart _].
  pose proof msPerDay_pos. lia.
Qed.

Lemma ordered_assign_gap (t : Z) (k : nat) (p : BillingCycleProjection) :
  nth_error ps k = Some p ->
  cycleEndDate p < t < cycleEndDate p + msPerDay ->
  assignTransactionToCycle t ps = None.
Proof.
  intros Hp Ht. apply assign_none. intros a Ha [Hs He].
  apply In_nth_error in Ha. destruct Ha as (j & Ha).
  pose proof msPerDay_pos.
  destruct (Nat.lt_trichotomy j k) as [Hlt|[->|Hgt]].
  - pose proof (cycles_apart j k a p Hlt Ha Hp).
    pose proof (cycle_start_before_end k p Hp). lia.
  - rewrite Hp in Ha. injection Ha as <-. lia.
  - pose proof (cycles_apart k j p a Hgt Hp Ha). lia.
Qed.

End Cycles.

(** Under the conditions that order the projections (a cycle length of at
    least 2 days, a due date offset of at least 1 day and, with a
    statement day, a day of at least 1 that puts the first projected
    statement after the first cycle start), the projected cycles do not
    overlap: a date that lies in one of them is assigned to that one. *)
Theorem assignTransactionToCycle_projected_unique
    (lastKnownCycle : HistoricalCycle) (pattern : BillingCyclePattern)
    (monthsAhead : Z) (k : nat) (q : BillingCycleProjection) (t : Z) :
  (2 <= typicalCycleLength pattern)%Q ->
  1 <= dueDateOffset pattern ->
  (forall day, statementDayOfMonth pattern = Some day ->
     1 <= day /\
     addDays (statementDate lastKnownCycle) 1
     < nextStatementDateOf pattern (statementDate lastKnownCycle)) ->
  nth_error (projectFutureCycles lastKnownCycle pattern monthsAhead) k = Some q ->
  inCycle t q ->
  assignTransactionToCycle t (projectFutureCycles lastKnownCycle pattern monthsAhead)
  = Some q.
Proof.
  intros Hlen Hoff Hday Hq Hin.
  destruct (projections_ordered lastKnownCycle pattern monthsAhead Hlen Hoff Hday)
    as [Hwf Hlink].
  exact (ordered_assign_unique _ Hwf Hlink t k q Hq Hin).
Qed.

Lemma assignTransactionToCycle_projected_unique_witness :
  exists q,
    nth_error (projectFutureCycles exampleCycle monthlyPattern 6) 1 = Some q /\
    assignTransactionToCycle (ymd 2024 3 1)
      (projectFutureCycles exampleCycle monthlyPattern 6) = Some q.
Proof.
  eexists. split; [vm_compute; reflexivity|].
  apply (assignTransactionToCycle_projected_unique exampleCycle monthlyPattern
           6 1 _ (ymd 2024 3 1)).
  - discriminate.
  - cbn. lia.
  - intros day [= <-]. split; [lia|vm_compute; reflexivity].
  - vm_compute. reflexivity.
  - vm_compute. split; discriminate.
Defined.

(** Under the same conditions, a time after midnight on the closing day of
    a projected cycle is assigned to no cycle: the cycle ends at the
    midnight that begins its closing day and the next one starts at the
    following midnight. *)
Theorem assignTransactionToCycle_closing_day_unassigned
    (lastKnownCycle : HistoricalCycle) (pattern : BillingCyclePattern)
    (monthsAhead : Z) (k : nat) (p : BillingCycleProjection) (t : Z) :
  (2 <= typicalCycleLength pattern)%Q ->
  1 <= dueDateOffset pattern ->
  (forall day, statementDayOfMonth pattern = Some day ->
     1 <= day /\
     addDays (statementDate lastKnownCycle) 1
     < nextStatementDateOf pattern (statementDate lastKnownCycle)) ->
  nth_error (projectFutureCycles lastKnownCycle pattern monthsAhead) k = Some p ->
  cycleEndDate p < t < cycleEndDate p + msPerDay ->
  assignTransactionToCycle t (projectFutureCycles lastKnownCycle pattern monthsAhead)
  = None.
Proof.
  intros Hlen Hoff Hday Hp Ht.
  destruct (projections_ordered lastKnownCycle pattern monthsAhead Hlen Hoff Hday)
    as [Hwf Hlink].
  exact (ordered_assign_gap _ Hwf Hlink t k p Hp Ht).
Qed.

Lemma assignTransactionToCycle_closing_day_unassigned_witness :
  assignTransactionToCycle (ymd 2024 2 15 + 12 * 3600000)
    (projectFutureCycles exampleCycle monthlyPattern 6) = None.
Proof.
  eapply (assignTransactionToCycle_closing_day_unassigned exampleCycle
            monthlyPattern 6 0 _ (ymd 2024 2 15 + 12 * 3600000)).
  - discriminate.
  - cbn. lia.
  - intros day [= <-]. split; [lia|vm_compute; reflexivity].
  - vm_compute. reflexivity.
  - vm_compute. split; reflexivity.
Defined.

(** ** Month-end adjustment, further *)

Lemma adjustForMonthEnd_time (date targetDay : Z) :
  adjustForMonthEnd date targetDay
  = date + (Z.min targetDay
                  (Civil.days_in_month (YearFromTime date) (MonthFromTime date + 1))
            - DateFromTime date) * msPerDay.
Proof.
  unfold adjustForMonthEnd, DateFns.setDate, getDate.
  destruct (endOfMonth_fields date) as (_ & _ & ->).
  destruct (Z.ltb_spec (Civil.days_in_month (YearFromTime date)
                                            (MonthFromTime date + 1)) targetDay);
    rewrite setDate_time, ToIntegerOrInfinity_Z; f_equal; f_equal; lia.
Qed.

(** For a target day of at least 1, adjusting an adjusted date changes
    nothing, and a date is left as it is exactly when it already is on the
    target day or, in a month that is too short, on the last day of its
    month. *)
Theorem adjustForMonthEnd_idempotent (date targetDay : Z) :
  1 <= targetDay ->
  adjustForMonthEnd (adjustForMonthEnd date targetDay) targetDay
  = adjustForMonthEnd date targetDay /\
  (adjustForMonthEnd date targetDay = date <->
   getDate date
   = Z.min targetDay
           (Civil.days_in_month (getFullYear date) (getMonth date + 1))).
Proof.
  intros H1. split.
  - rewrite (adjustForMonthEnd_time (adjustForMonthEnd date targetDay)).
    destruct (adjustForMonthEnd_fields date targetDay H1) as (-> & -> & ->).
    rewrite Z.sub_diag, Z.mul_0_l. apply Z.add_0_r.
  - rewrite adjustForMonthEnd_time. unfold getDate, getFullYear, getMonth.
    pose proof msPerDay_pos. split; intros E; [nia|rewrite E; ring].
Qed.

Lemma adjustForMonthEnd_idempotent_witness :
  adjustForMonthEnd (adjustForMonthEnd (ymd 2023 2 10) 31) 31
  = adjustForMonthEnd (ymd 2023 2 10) 31 /\
  (adjustForMonthEnd (ymd 2023 2 10) 31 = ymd 2023 2 10 <->
   getDate (ymd 2023 2 10)
   = Z.min 31 (Civil.days_in_month (getFullYear (ymd 2023 2 10))
                                   (getMonth (ymd 2023 2 10) + 1))).
Proof.
  apply (adjustForMonthEnd_idempotent (ymd 2023 2 10) 31). lia.
Defined.

(** The day number of the first day of a month, by month index. *)
Lemma MakeDay_index (y m d : Z) :
  0 <= m <= 11 -> MakeDay 0 (y * 12 + m) d = MakeDay y m d.
Proof.
  intros Hm. rewrite MakeDay_month_carry.
  replace ((y * 12 + m) / 12) with y
    by (apply (Z.div_unique _ _ _ m); lia).
  replace ((y * 12 + m) mod 12) with m
    by (apply (Z.mod_unique _ _ y); lia).
  reflexivity.
Qed.

Lemma MakeDay_index_mono (n : Z) (k : nat) :
  MakeDay 0 n 1 <= MakeDay 0 (n + Z.of_nat k) 1.
Proof.
  induction k as [|k IH]; [rewrite Z.add_0_r; lia|].
  replace (n + Z.of_nat (S k)) with (n + Z.of_nat k + 1) by lia.
  rewrite MakeDay_next_month.
  pose proof (days_in_month_bounds (0 + (n + Z.of_nat k) / 12)
                ((n + Z.of_nat k) mod 12 + 1)).
  lia.
Qed.

Lemma monthIndex_first_day (t : Z) : MakeDay 0 (monthIndex t) 1 <= Day t.
Proof.
  destruct (date_fields t) as (Hm & Hd & E).
  unfold monthIndex, getFullYear, getMonth.
  rewrite MakeDay_index by exact Hm.
  rewrite E, (MakeDay_date _ _ (DateFromTime t)). lia.
Qed.

(** [adjustForMonthEnd] does not check its target day.  For a target day
    of 0 or less it moves the date back by the day of the month minus the
    target day, into an earlier month; a target day of 0 gives the last
    day of the month before. *)
Theorem adjustForMonthEnd_nonpositive_day (date targetDay : Z) :
  targetDay <= 0 ->
  let r := adjustForMonthEnd date targetDay in
  r = date - (getDate date - targetDay) * msPerDay /\
  monthIndex r < monthIndex date /\
  (targetDay = 0 ->
   monthIndex r = monthIndex date - 1 /\
   getDate r = Civil.days_in_month (getFullYear r) (getMonth r + 1)).
Proof.
  intros H0 r.
  destruct (date_fields date) as (Hm & Hd & E).
  assert (Er : r = date + (targetDay - DateFromTime date) * msPerDay).
  { subst r. rewrite adjustForMonthEnd_time.
    pose proof (days_in_month_bounds (YearFromTime date)
                  (MonthFromTime date + 1)).
    f_equal. f_equal. lia. }
  clearbody r.
  assert (Ed : Day r
               = MakeDay (YearFromTime date) (MonthFromTime date) targetDay).
  { rewrite Er, Day_shift, E.
    rewrite (MakeDay_date _ _ (DateFromTime date)).
    rewrite (MakeDay_date _ _ targetDay). lia. }
  split; [rewrite Er; unfold getDate; lia|]. split.
  - destruct (Z.lt_ge_cases (monthIndex r) (monthIndex date)) as [Hlt|Hge];
      [exact Hlt|exfalso].
    pose proof (monthIndex_first_day r) as Hr.
    pose proof (MakeDay_index_mono (monthIndex date)
                  (Z.to_nat (monthIndex r - monthIndex date))) as Hmono.
    replace (monthIndex date + Z.of_nat (Z.to_nat (monthIndex r - monthIndex date)))
      with (monthIndex r) in Hmono by lia.
    unfold monthIndex at 1 in Hmono. unfold getFullYear, getMonth in Hmono.
    rewrite MakeDay_index in Hmono by exact Hm.
    rewrite (MakeDay_date _ _ targetDay) in Ed. lia.
  - intros ->.
    pose proof (MakeDay_last_day (YearFromTime date) (MonthFromTime date - 1)) as L.
    replace (MonthFromTime date - 1 + 1) with (MonthFromTime date) in L by ring.
    rewrite L in Ed.
    pose proof (days_in_month_bounds
                  (YearFromTime date + (MonthFromTime date - 1) / 12)
                  ((MonthFromTime date - 1) mod 12 + 1)) as B.
    destruct (fields_of_MakeDate_carry (YearFromTime date) (MonthFromTime date - 1)
                (Civil.days_in_month
                   (YearFromTime date + (MonthFromTime date - 1) / 12)
                   ((MonthFromTime date - 1) mod 12 + 1))
                (TimeWithinDay r) ltac:(lia) (TimeWithinDay_bounds r))
      as (Fy & Fm & Fd).
    rewrite <- Ed, MakeDate_Day in Fy, Fm, Fd.
    unfold monthIndex, getFullYear, getMonth, getDate.
    rewrite Fd, Fy, Fm. split; [|reflexivity].
    pose proof (Z.div_mod (MonthFromTime date - 1) 12 ltac:(lia)). lia.
Qed.

Lemma adjustForMonthEnd_nonpositive_day_witness :
  let r := adjustForMonthEnd (ymd 2024 3 15) 0 in
  r = ymd 2024 3 15 - (getDate (ymd 2024 3 15) - 0) * msPerDay /\
  monthIndex r < monthIndex (ymd 2024 3 15) /\
  (0 = 0 ->
   monthIndex r = monthIndex (ymd 2024 3 15) - 1 /\
   getDate r = Civil.days_in_month (getFullYear r) (getMonth r + 1)).
Proof.
  apply (adjustForMonthEnd_nonpositive_day (ymd 2024 3 15) 0). lia.
Defined.

(** ** The confidence of a cycle, further *)

Lemma calculateCycleConfidence_factors (dataSource : DataSource)
    (dataAgeHours patternConfidence : Q) :
  (calculateCycleConfidence dataSource dataAgeHours patternConfidence
   == clampUnit (patternConfidence * provenanceFactor dataSource
                 * stalenessFactor dataAgeHours))%Q.
Proof.
  unfold calculateCycleConfidence, stalenessFactor.
  apply clamp_unit.
  destruct dataSource; cbn [provenanceFactor];
    destruct (Qltb 48 dataAgeHours); ring.
Qed.

Lemma stalenessFactor_cases (a : Q) :
  ((a <= 48 /\ stalenessFactor a == 1) \/
   (48 < a /\ a <= 408 /\ stalenessFactor a == 1 - (a - 48) * (1 # 720)) \/
   (408 < a /\ stalenessFactor a == 0.5))%Q.
Proof.
  unfold stalenessFactor, Qltb, Math_max.
  destruct (Qle_bool a 48) eqn:E; cbn [negb].
  - apply Qle_bool_iff in E. left. split; [exact E|reflexivity].
  - apply Qle_bool_false in E. right.
    unfold Qdiv. change (/ 720)%Q with (1 # 720)%Q.
    destruct (Qle_bool 0.5 (1 - (a - 48) * (1 # 720))) eqn:F.
    + apply Qle_bool_iff in F. left.
      split; [exact E|]. split; [lra|reflexivity].
    + apply Qle_bool_false in F. right. split; [lra|reflexivity].
Qed.

Lemma clampUnit_cases (x : Q) :
  ((x < 0 /\ clampUnit x == 0) \/ (0 <= x <= 1 /\ clampUnit x == x) \/
   (1 < x /\ clampUnit x == 1))%Q.
Proof.
  unfold clampUnit, Qltb.
  destruct (Qle_bool 0 x) eqn:E; cbn [negb].
  - apply Qle_bool_iff in E.
    destruct (Qle_bool x 1) eqn:F; cbn [negb].
    + apply Qle_bool_iff in F. right. left. repeat split; assumption || reflexivity.
    + apply Qle_bool_false in F. right. right. split; [exact F|reflexivity].
  - apply Qle_bool_false in E. left. split; [exact E|reflexivity].
Qed.

Lemma clampUnit_monotone (x y : Q) :
  (x <= y)%Q -> (clampUnit x <= clampUnit y)%Q.
Proof.
  intros H.
  destruct (clampUnit_cases x) as [[? ->]|[[? ->]|[? ->]]];
    destruct (clampUnit_cases y) as [[? ->]|[[? ->]|[? ->]]]; lra.
Qed.

Lemma clampUnit_comp (x y : Q) : (x == y)%Q -> (clampUnit x == clampUnit y)%Q.
Proof.
  intros E. apply Qle_antisym; apply clampUnit_monotone; rewrite E; apply Qle_refl.
Qed.

(** For a pattern confidence of 0 or more, older data never gives a
    higher confidence. *)
Theorem calculateCycleConfidence_age_antitone (dataSource : DataSource)
    (age1 age2 patternConfidence : Q) :
  (0 <= patternConfidence)%Q -> (age1 <= age2)%Q ->
  (calculateCycleConfidence dataSource age2 patternConfidence
   <= calculateCycleConfidence dataSource age1 patternConfidence)%Q.
Proof.
  intros Hpc Hage. rewrite !calculateCycleConfidence_factors.
  apply clampUnit_monotone.
  assert (Hs : (stalenessFactor age2 <= stalenessFactor age1)%Q).
  { destruct (stalenessFactor_cases age1) as [[? ->]|[(? & ? & ->)|[? ->]]];
      destruct (stalenessFactor_cases age2) as [[? ->]|[(? & ? & ->)|[? ->]]];
      lra. }
  assert (Hp : (0 <= patternConfidence * provenanceFactor dataSource)%Q)
    by (destruct dataSource; cbn [provenanceFactor]; lra).
  revert Hs Hp. generalize (stalenessFactor age1) (stalenessFactor age2)
    (patternConfidence * provenanceFactor dataSource)%Q.
  intros s1 s2 c Hs Hc. nra.
Qed.

Lemma calculateCycleConfidence_age_antitone_witness :
  (calculateCycleConfidence inferred 200 0.9
   <= calculateCycleConfidence inferred 72 0.9)%Q.
Proof.
  apply (calculateCycleConfidence_age_antitone inferred 72 200 0.9);
    vm_compute; discriminate.
Defined.

(** The age of the data matters only between 48 and 408 hours: up to 48
    hours the confidence is that of fresh data, from 408 hours on it is
    that of data 408 hours old, when the staleness factor has reached its
    floor of one half. *)
Theorem calculateCycleConfidence_age_plateaus (dataSource : DataSource)
    (dataAgeHours patternConfidence : Q) :
  ((dataAgeHours <= 48)%Q ->
   (calculateCycleConfidence dataSource dataAgeHours patternConfidence
    == calculateCycleConfidence dataSource 0 patternConfidence)%Q) /\
  ((408 <= dataAgeHours)%Q ->
   (calculateCycleConfidence dataSource dataAgeHours patternConfidence
    == clampUnit (patternConfidence * provenanceFactor dataSource * 0.5))%Q).
Proof.
  split; intros H; rewrite !calculateCycleConfidence_factors;
    apply clampUnit_comp.
  - change (stalenessFactor 0) with 1%Q.
    destruct (stalenessFactor_cases dataAgeHours) as [[? ->]|[(? & ? & ->)|[? ->]]];
      [reflexivity|lra|lra].
  - destruct (stalenessFactor_cases dataAgeHours) as [[? E]|[(? & ? & E)|[? E]]];
      [lra| |rewrite E; reflexivity].
    assert (Ea : (dataAgeHours == 408)%Q) by lra.
    rewrite E, Ea. ring.
Qed.

(** ** The confidence message *)

Section ConfidenceMessages.
Import String.
Local Open Scope string_scope.

Lemma calculateCycleConfidence_bound (dataSource : DataSource)
    (dataAgeHours patternConfidence b : Q) :
  (patternConfidence <= 1)%Q -> (0 <= b)%Q ->
  (provenanceFactor dataSource * stalenessFactor dataAgeHours <= b)%Q ->
  (calculateCycleConfidence dataSource dataAgeHours patternConfidence <= b)%Q.
Proof.
  intros Hpc Hb Hf. rewrite calculateCycleConfidence_factors.
  assert (Hpos : (0 <= provenanceFactor dataSource * stalenessFactor dataAgeHours)%Q).
  { destruct (stalenessFactor_cases dataAgeHours) as [[? ->]|[(? & ? & ->)|[? ->]]];
      destruct dataSource; cbn [provenanceFactor]; lra. }
  assert (Hx : (patternConfidence * provenanceFactor dataSource
                * stalenessFactor dataAgeHours <= b)%Q).
  { rewrite <- Qmult_assoc.
    revert Hf Hpos.
    generalize (provenanceFactor dataSource * stalenessFactor dataAgeHours)%Q.
    intros f Hf Hpos. nra. }
  revert Hx. generalize (patternConfidence * provenanceFactor dataSource
                         * stalenessFactor dataAgeHours)%Q.
  intros x Hx.
  destruct (clampUnit_cases x) as [[? ->]|[[? ->]|[? ->]]]; lra.
Qed.

(** For a pattern confidence of at most 1, manually entered data never
    gets the message of fresh bank data, and data of 408 hours or older,
    whatever its source, gets one of the two weakest messages. *)
Theorem getConfidenceMessage_of_cycle_confidence
    (dataSource : DataSource) (dataAgeHours patternConfidence : Q) :
  (patternConfidence <= 1)%Q ->
  getConfidenceMessage
    (calculateCycleConfidence manual dataAgeHours patternConfidence)
  <> "Updated today from your bank" /\
  ((408 <= dataAgeHours)%Q ->
   let message :=
     getConfidenceMessage
       (calculateCycleConfidence dataSource dataAgeHours patternConfidence) in
   message = "Projection based on limited data" \/
   message = "Unable to sync. Please verify manually").
Proof.
  intros Hpc. split.
  - assert (B : (calculateCycleConfidence manual dataAgeHours patternConfidence
                 <= 0.7)%Q).
    { apply calculateCycleConfidence_bound; [exact Hpc|lra|].
      cbn [provenanceFactor].
      destruct (stalenessFactor_cases dataAgeHours) as [[? ->]|[(? & ? & ->)|[? ->]]];
        lra. }
    unfold getConfidenceMessage.
    destruct (Qle_bool 0.85 _) eqn:E1; [apply Qle_bool_iff in E1; lra|].
    destruct (Qle_bool 0.65 _); [discriminate|].
    destruct (Qle_bool 0.45 _); discriminate.
  - intros Hage message. subst message.
    assert (B : (calculateCycleConfidence dataSource dataAgeHours patternConfidence
                 <= 0.5)%Q).
    { apply calculateCycleConfidence_bound; [exact Hpc|lra|].
      destruct (stalenessFactor_cases dataAgeHours) as [[? E]|[(? & ? & E)|[? E]]];
        rewrite E; destruct dataSource; cbn [provenanceFactor]; lra. }
    unfold getConfidenceMessage.
    destruct (Qle_bool 0.85 _) eqn:E1; [apply Qle_bool_iff in E1; lra|].
    destruct (Qle_bool 0.65 _) eqn:E2; [apply Qle_bool_iff in E2; lra|].
    destruct (Qle_bool 0.45 _); [left|right]; reflexivity.
Qed.

Lemma getConfidenceMessage_of_cycle_confidence_witness :
  getConfidenceMessage (calculateCycleConfidence manual 500 0.9)
  <> "Updated today from your bank" /\
  ((408 <= 500)%Q ->
   let message :=
     getConfidenceMessage (calculateCycleConfidence plaid 500 0.9) in
   message = "Projection based on limited data" \/
   message = "Unable to sync. Please verify manually").
Proof.
  apply (getConfidenceMessage_of_cycle_confidence plaid 500 0.9).
  vm_compute. discriminate.
Defined.

End ConfidenceMessages.
